(** * ember-formidable: the form state store

    The component binds a values object to form inputs and keeps the
    dirty set, the error map and the rollback snapshot.  This file
    models

    - the JavaScript values the store holds, with the helpers the
      component imports ([lodash/set], [lodash/unset], [lodash/isEmpty],
      [lodash/isEqual], [lodash/cloneDeep], Ember's [get]);
    - the component of [ember-formidable/src/components/formidable/index.ts]
      (module [Classic]: ember-concurrency tasks, a plain object or an
      ember-data record as values);
    - the later revision of the same component, the [.gts] class with
      [async] methods, [dirtyField] and [getDefaultValue] (module [Gts]);
    - the operations of the later revision that store and read values,
      once more with the objects held by reference (module [ByRef]).

    Conventions.  In [Classic] and [Gts] objects are modelled by value: a
    bag is the list of its own enumerable properties in enumeration
    order, and a value handed to the component is an object of its own.
    The component holds its objects by reference, and in two places that
    shows: the single-field [rollback] stores the snapshot's own object
    in the values bag, and the parsed view is built with [lodash/set],
    which writes into the stored objects it walks through.  [ByRef] has
    both, and the lemmas [field_rollback_shares_the_snapshot] and
    [parsed_view_writes_into_stored_objects] show where the two models
    part; a theorem on [Gts] or [Classic] whose statement depends on it
    says in its hypotheses which stores or histories it speaks of.  An
    array is known by its index properties, its length being one past
    the greatest of them: an array whose last element has been deleted
    reads one shorter than in JavaScript.  A string is a sequence of
    UTF-16 code units below 256.  Properties inherited from prototypes
    and the bracket syntax of lodash paths are not modelled.  Of the DOM
    side of [register]
    the listeners it attaches and its teardown removes are modelled, the
    attributes it writes are not; [unregister] is modelled by its effect
    on the store.  Of the event handlers the change handler of the
    classic component is modelled; the others and [setFocus] are not.
    An [async] method or task is split at its [await] or [yield];
    [validate] and [submit] compose the halves when nothing interleaves,
    and the [world]s and [session]s interleave them. *)

From Stdlib Require Import List String Ascii Bool ZArith NArith Arith Lia.
From Stdlib Require Import DecimalString DecimalN.
Import ListNotations.
Open Scope string_scope.
Open Scope list_scope.

(* ================================================================== *)
(** ** Strings: dotted paths and array indices *)

(** ["a.b".split(".")].  For a string without brackets this is also what
    lodash's [stringToPath] returns; bracket syntax (["a[0]"]) is not
    modelled, field paths are dotted strings. *)
Fixpoint split_dots (s : string) : list string :=
  match s with
  | EmptyString => [EmptyString]
  | String c rest =>
      if Ascii.eqb c "."%char then EmptyString :: split_dots rest
      else match split_dots rest with
           | [] => [String c EmptyString]
           | seg :: segs => String c seg :: segs
           end
  end.

Fixpoint has_dot (s : string) : bool :=
  match s with
  | EmptyString => false
  | String c rest => Ascii.eqb c "."%char || has_dot rest
  end.

Definition is_digit (c : ascii) : bool :=
  let n := nat_of_ascii c in Nat.leb 48 n && Nat.leb n 57.

Fixpoint all_digits (s : string) : bool :=
  match s with
  | EmptyString => true
  | String c rest => is_digit c && all_digits rest
  end.

(** A canonical numeric string: a single 0, or digits that do not start
    with 0. *)
Definition canonical_digits (s : string) : bool :=
  match s with
  | EmptyString => false
  | String c EmptyString => is_digit c
  | String c rest => is_digit c && negb (Ascii.eqb c "0"%char) && all_digits rest
  end.

Fixpoint digits_value (s : string) (acc : N) : N :=
  match s with
  | EmptyString => acc
  | String c rest => digits_value rest (10 * acc + (N_of_ascii c - 48))%N
  end.

(** lodash [isIndex] on a string: canonical digits below
    [Number.MAX_SAFE_INTEGER]. *)
Definition isIndex (s : string) : bool :=
  canonical_digits s && N.ltb (digits_value s 0) 9007199254740991.

(** An array index in the sense of the language: these are the keys an
    engine enumerates first, in ascending order, and the ones that make
    the length of an array. *)
Definition array_index (s : string) : option N :=
  if canonical_digits s && N.ltb (digits_value s 0) 4294967295
  then Some (digits_value s 0) else None.

Definition string_of_N (n : N) : string :=
  NilEmpty.string_of_uint (N.to_uint n).

(* ================================================================== *)
(** ** JavaScript values *)

(** The class of an object: a plain object, an array (its elements are
    the properties named by indices, its length is one past the greatest
    index), or a [Date] with its time value ([None] is Invalid Date). *)
Inductive kind : Type :=
| KPlain
| KArray
| KDate (t : option Z).

(** Numbers are the integers and NaN; the coercions that may produce
    other numbers are taken from the host (see [host]). *)
Inductive value : Type :=
| VUndef
| VNull
| VBool (b : bool)
| VNum (z : Z)
| VNaN
| VStr (s : string)
| VObj (k : kind) (ps : list (string * value)).

(** Own enumerable properties, in insertion order. *)
Definition props : Type := list (string * value).

Definition obj (ps : props) : value := VObj KPlain ps.
Definition arr (ps : props) : value := VObj KArray ps.

Fixpoint own_get (ps : props) (key : string) : option value :=
  match ps with
  | [] => None
  | (k, v) :: rest => if String.eqb k key then Some v else own_get rest key
  end.

Definition has_own (ps : props) (key : string) : bool :=
  match own_get ps key with Some _ => true | None => false end.

Fixpoint own_replace (ps : props) (key : string) (v : value) : props :=
  match ps with
  | [] => []
  | (k, x) :: rest =>
      if String.eqb k key then (k, v) :: rest else (k, x) :: own_replace rest key v
  end.

(** Where a new array index goes: after the smaller indices, before
    everything else. *)
Fixpoint insert_index (ps : props) (i : N) (key : string) (v : value) : props :=
  match ps with
  | [] => [(key, v)]
  | (k, x) :: rest =>
      match array_index k with
      | Some j =>
          if N.ltb j i then (k, x) :: insert_index rest i key v
          else (key, v) :: (k, x) :: rest
      | None => (key, v) :: (k, x) :: rest
      end
  end.

(** [o[key] = v]: an existing key keeps its place; a new key goes last,
    unless it is an array index, which is enumerated among the indices. *)
Definition own_set (ps : props) (key : string) (v : value) : props :=
  if has_own ps key then own_replace ps key v
  else match array_index key with
       | Some i => insert_index ps i key v
       | None => ps ++ [(key, v)]
       end.

(** [delete o[key]]. *)
Fixpoint own_delete (ps : props) (key : string) : props :=
  match ps with
  | [] => []
  | (k, x) :: rest =>
      if String.eqb k key then own_delete rest key else (k, x) :: own_delete rest key
  end.

Definition keys (ps : props) : list string := map fst ps.

(** [o[key]] read as a value: a missing property is [undefined]. *)
Definition prop (ps : props) (key : string) : value :=
  match own_get ps key with Some v => v | None => VUndef end.

(** [array.length]. *)
Fixpoint array_length (ps : props) : N :=
  match ps with
  | [] => 0%N
  | (k, _) :: rest =>
      match array_index k with
      | Some i => N.max (N.succ i) (array_length rest)
      | None => array_length rest
      end
  end.

Definition isObject (v : value) : bool :=
  match v with VObj _ _ => true | _ => false end.

(** [Boolean(v)]. *)
Definition toBoolean (v : value) : bool :=
  match v with
  | VUndef | VNull | VNaN => false
  | VBool b => b
  | VNum z => negb (Z.eqb z 0)
  | VStr s => negb (String.eqb s "")
  | VObj _ _ => true
  end.

(** [a ?? b]. *)
Definition nullish (v : value) : bool :=
  match v with VUndef | VNull => true | _ => false end.

Definition coalesce (a b : value) : value := if nullish a then b else a.

(* ================================================================== *)
(** ** lodash and Ember helpers *)

(** lodash [castPath(path, object)]: a string without a dot, or one that
    is already a property of the object, is a single key; any other
    string is split at its dots. *)
Definition castPath (ps : props) (path : string) : list string :=
  if has_dot path && negb (has_own ps path) then split_dots path else [path].

(** The keys lodash's [baseSet] refuses to write. *)
Definition unsafe_key (key : string) : bool :=
  String.eqb key "__proto__" || String.eqb key "constructor"
  || String.eqb key "prototype".

(** lodash [baseSet], on the properties of the object it mutates: every
    key of the path but the last is kept when it holds an object and is
    otherwise replaced by a new array (next key is an index) or a new
    plain object; the last key receives the value. *)
Fixpoint baseSet (ps : props) (path : list string) (v : value) : props :=
  match path with
  | [] => ps
  | key :: rest =>
      if unsafe_key key then ps
      else match rest with
           | [] => own_set ps key v
           | next :: _ =>
               match own_get ps key with
               | Some (VObj k inner) => own_set ps key (VObj k (baseSet inner rest v))
               | _ =>
                   own_set ps key
                     (VObj (if isIndex next then KArray else KPlain)
                        (baseSet [] rest v))
               end
           end
  end.

(** [_set(object, path, value)] on an object given by its properties. *)
Definition _set (ps : props) (path : string) (v : value) : props :=
  baseSet ps (castPath ps path) v.

(** lodash [baseUnset]: delete the last key of the path from its parent,
    when the parent is there.  (Deleting the last element of an array
    leaves a hole in JavaScript; here the array reads one shorter, see
    [kind].) *)
Fixpoint baseUnset (ps : props) (path : list string) : props :=
  match path with
  | [] => ps
  | [key] => own_delete ps key
  | key :: rest =>
      match own_get ps key with
      | Some (VObj k inner) => own_set ps key (VObj k (baseUnset inner rest))
      | _ => ps
      end
  end.

Definition _unset (ps : props) (path : string) : props :=
  baseUnset ps (castPath ps path).

(** Ember's [_getProp]: an own property of an object, the length of an
    array, the length or a character of a string (counted in code units,
    which are the characters of a string here); [undefined] on anything
    else.  Properties inherited from prototypes are not modelled. *)
Definition getProp (o : value) (key : string) : value :=
  match o with
  | VObj k ps =>
      match own_get ps key, k with
      | Some v, _ => v
      | None, KArray =>
          if String.eqb key "length" then VNum (Z.of_N (array_length ps)) else VUndef
      | None, _ => VUndef
      end
  | VStr s =>
      if String.eqb key "length" then VNum (Z.of_nat (String.length s))
      else match array_index key with
           | Some i =>
               match String.get (N.to_nat i) s with
               | Some c => VStr (String c EmptyString)
               | None => VUndef
               end
           | None => VUndef
           end
  | _ => VUndef
  end.

(** Ember's [get(obj, keyName)]: a key with a dot is a path, walked one
    segment at a time. *)
Definition get_value (o : value) (keyName : string) : value :=
  if has_dot keyName then fold_left getProp (split_dots keyName) o
  else getProp o keyName.

Definition get (ps : props) (keyName : string) : value :=
  get_value (obj ps) keyName.

(** [_isEmpty(value)]. *)
Definition _isEmpty (v : value) : bool :=
  match v with
  | VUndef | VNull | VBool _ | VNum _ | VNaN => true
  | VStr s => String.eqb s ""
  | VObj KArray ps => N.eqb (array_length ps) 0
  | VObj _ ps => match ps with [] => true | _ :: _ => false end
  end.

Definition kind_eqb (a b : kind) : bool :=
  match a, b with
  | KPlain, KPlain | KArray, KArray => true
  | KDate (Some x), KDate (Some y) => Z.eqb x y
  | KDate None, KDate None => true
  | _, _ => false
  end.

Definition is_undef (v : value) : bool :=
  match v with VUndef => true | _ => false end.

(** [_isEqual(a, b)]: primitives by [===] with NaN equal to NaN, dates by
    time value, arrays by length and elements, plain objects by their
    key sets and the values under each key. *)
Fixpoint _isEqual (a b : value) {struct a} : bool :=
  match a, b with
  | VUndef, VUndef | VNull, VNull | VNaN, VNaN => true
  | VBool x, VBool y => Bool.eqb x y
  | VNum x, VNum y => Z.eqb x y
  | VStr x, VStr y => String.eqb x y
  | VObj ka pa, VObj kb pb =>
      kind_eqb ka kb &&
      match ka with
      | KDate _ => true
      | KPlain =>
          Nat.eqb (List.length pa) (List.length pb) &&
          (fix each (l : props) : bool :=
             match l with
             | [] => true
             | (k, va) :: l' =>
                 match own_get pb k with
                 | Some vb => _isEqual va vb
                 | None => false
                 end && each l'
             end) pa
      | KArray =>
          N.eqb (array_length pa) (array_length pb) &&
          (fix each (l : props) : bool :=
             match l with
             | [] => true
             | (k, va) :: l' =>
                 (match array_index k with
                  | Some _ => _isEqual va (prop pb k)
                  | None => true
                  end) && each l'
             end) pa &&
          forallb (fun kv => match array_index (fst kv) with
                             | Some _ => has_own pa (fst kv) || is_undef (snd kv)
                             | None => true
                             end) pb
      end
  | _, _ => false
  end.

(** The elements [0 .. n-1] of an array, a hole read as [undefined]. *)
Definition dense (ps : props) (n : N) : props :=
  map (fun i => (string_of_N (N.of_nat i), prop ps (string_of_N (N.of_nat i))))
    (seq 0 (N.to_nat n)).

(** [_cloneDeep(value)]: a structurally equal copy; of an array only the
    elements are copied. *)
Fixpoint _cloneDeep (v : value) : value :=
  match v with
  | VObj k ps =>
      let copied :=
        (fix each (l : props) : props :=
           match l with
           | [] => []
           | (key, x) :: l' => (key, _cloneDeep x) :: each l'
           end) ps in
      match k with
      | KArray => VObj KArray (dense copied (array_length ps))
      | _ => VObj k copied
      end
  | _ => v
  end.

Definition clone_props (ps : props) : props :=
  match _cloneDeep (obj ps) with VObj _ ps' => ps' | _ => ps end.

(* ================================================================== *)
(** ** What both revisions share: parse directives and derived reads *)

(** The coercions of the host language that the component applies to a
    raw value: unary plus, the [Date] constructor and string conversion. *)
Record host : Type := {
  unary_plus : value -> value;
  new_Date : value -> value;
  (** the string a template literal makes of a value *)
  template : value -> value
}.

(** An entry of the parser registry, as [register] records it. *)
Record parser : Type := {
  valueAsNumber : bool;
  valueAsDate : bool;
  valueAsBoolean : bool;
  valueFormat : option (value -> value)
}.

Definition parser_registry : Type := list (string * parser).

Fixpoint parser_for (ps : parser_registry) (key : string) : option parser :=
  match ps with
  | [] => None
  | (k, p) :: rest => if String.eqb k key then Some p else parser_for rest key
  end.

Fixpoint set_parser (ps : parser_registry) (key : string) (p : parser)
  : parser_registry :=
  match ps with
  | [] => [(key, p)]
  | (k, q) :: rest =>
      if String.eqb k key then (k, p) :: rest else (k, q) :: set_parser rest key p
  end.

(** The body of the reducer of [parsedValues]: which value is stored for
    an entry, given the registry entry of its key. *)
Definition applyDirective (H : host) (p : option parser) (v : value) : value :=
  match p with
  | None => v
  | Some p =>
      match valueFormat p with
      | Some format => format v
      | None =>
          if valueAsNumber p then unary_plus H v
          else if valueAsDate p then new_Date H v
          else if valueAsBoolean p then VBool (toBoolean v)
          else v
      end
  end.

(** [Object.entries(values).reduce((obj, [key, value]) => _set(obj, key, ...), {})]. *)
Definition parse_entries (H : host) (reg : parser_registry) (vals : props) : props :=
  fold_left
    (fun acc kv => _set acc (fst kv) (applyDirective H (parser_for reg (fst kv)) (snd kv)))
    vals [].

(** What [getFieldState] returns.  [isDirty] is the stored flag itself
    ([dirtyFields[name] ?? false]). *)
Module FieldState.
Record t : Type := {
  isDirty : value;
  isPristine : bool;
  isInvalid : bool;
  error : value
}.
End FieldState.

(** The body of [getFieldState], the same in both revisions. *)
Definition fieldState (dirty errs : props) (name : string) : FieldState.t :=
  let d := coalesce (prop dirty name) (VBool false) in
  let e := prop errs name in
  {| FieldState.isDirty := d; FieldState.isPristine := negb (toBoolean d);
     FieldState.isInvalid := negb (_isEmpty e); FieldState.error := e |}.

(** [Object.keys(errors).reduce((invalid, key) => _set(invalid, key, true), {})]. *)
Definition invalid_of (errs : props) : props :=
  fold_left (fun invalid key => _set invalid key (VBool true)) (keys errs) [].

(** [[...(errors[key] ?? []), e]]: spreading an array copies its elements
    [0 .. length-1].  The entries the component writes are arrays or
    [undefined], and the statements about [setError] assume one of the
    two; for an entry of another shape (JavaScript spreads a string into
    its characters and throws on what is not iterable) the result here,
    no element, is not what the code does. *)
Definition append_error (errs : props) (key : string) (e : value) : props :=
  let old := match coalesce (prop errs key) (arr []) with
             | VObj KArray ps => dense ps (array_length ps)
             | _ => []
             end in
  own_set errs key (arr (old ++ [(string_of_N (N.of_nat (List.length old)), e)])).

(** The second argument of [setError]: a message, or an error object. *)
Inductive error_arg : Type :=
| Message (message : string)
| ErrorObject (e : props).

(** The record [setError] appends; [current] is what a missing [value]
    defaults to. *)
Definition error_record (e : error_arg) (current : value) : value :=
  match e with
  | Message m => obj [("message", VStr m); ("type", VStr "custom"); ("value", current)]
  | ErrorObject ps =>
      obj [("message", prop ps "message");
           ("type", coalesce (prop ps "type") (VStr "custom"));
           ("value", coalesce (prop ps "value") current)]
  end.

Inductive HandlerEvent : Type := onChange | onSubmit | onBlur | onFocus.

Definition event_eqb (a b : HandlerEvent) : bool :=
  match a, b with
  | onChange, onChange | onSubmit, onSubmit | onBlur, onBlur | onFocus, onFocus => true
  | _, _ => false
  end.

Definition includes (l : list HandlerEvent) (e : HandlerEvent) : bool :=
  existsb (event_eqb e) l.

(** What a validator's promise settles to. *)
Inductive settled : Type :=
| Resolved (validation : props)
| Rejected.

(** How a call ended. *)
Inductive outcome : Type := Returned | Threw.

(** A validation request names a field or the whole form; an empty
    string is falsy and means the whole form too. *)
Definition field_given (field : option string) : option string :=
  match field with
  | Some f => if String.eqb f "" then None else Some f
  | None => None
  end.

(** What a settled validation writes into the error map. *)
Definition apply_validation (errs : props) (field : option string) (validation : props)
  : props :=
  match field_given field with
  | Some f => _set errs f (get validation f)
  | None => validation
  end.

(** The elements of an array in index order, the holes left out: what
    [flat] and iteration see of it. *)
Definition elements (ps : props) : list value :=
  flat_map
    (fun i => match own_get ps (string_of_N (N.of_nat i)) with
              | Some v => [v]
              | None => []
              end)
    (seq 0 (N.to_nat (array_length ps))).

(** [Object.values(o).flat()]: the values of the object, each array
    among them replaced by its elements. *)
Definition flat_values (o : props) : list value :=
  flat_map (fun v => match v with VObj KArray ps => elements ps | _ => [v] end)
    (map snd o).

(** *** The listeners of an element

    [register] creates its handlers anew at each call, so a listener is
    known by the event it listens to, the registration that made it and
    which of the four handlers it is. *)
Inductive handler_kind : Type :=
| HandleChange
| HandleBlur
| HandleFocus
| HandleInvalid.   (* the [preventDefault] closure *)

Definition handler_eqb (x y : handler_kind) : bool :=
  match x, y with
  | HandleChange, HandleChange | HandleBlur, HandleBlur
  | HandleFocus, HandleFocus | HandleInvalid, HandleInvalid => true
  | _, _ => false
  end.

Record listener : Type := {
  l_event : string;
  l_owner : nat;
  l_handler : handler_kind
}.

Definition same_listener (ev : string) (owner : nat) (h : handler_kind) (l : listener)
  : bool :=
  String.eqb (l_event l) ev && Nat.eqb (l_owner l) owner && handler_eqb (l_handler l) h.

(** [addEventListener]: a listener already there is not added again. *)
Definition addEventListener (ls : list listener) (ev : string) (owner : nat)
  (h : handler_kind) : list listener :=
  if existsb (same_listener ev owner h) ls then ls
  else ls ++ [{| l_event := ev; l_owner := owner; l_handler := h |}].

Definition removeEventListener (ls : list listener) (ev : string) (owner : nat)
  (h : handler_kind) : list listener :=
  filter (fun l => negb (same_listener ev owner h l)) ls.

(** What [inputUtils] tells of an element, but for [setAttribute]. *)
Record input_kind : Type := {
  isFormInput : bool;
  isInput : bool;
  isTextarea : bool;
  isSelect : bool;
  isCheckbox : bool;
  isRadio : bool
}.

(** [inputUtils(input)] of [index.ts], from the tag name and the type of
    the element. *)
Definition inputUtils (tagName type : string) : input_kind :=
  {| isFormInput := String.eqb tagName "INPUT" || String.eqb tagName "SELECT"
                    || String.eqb tagName "TEXTAREA";
     isInput := String.eqb tagName "INPUT";
     isTextarea := String.eqb tagName "TEXTAREA";
     isSelect := String.eqb tagName "SELECT";
     isCheckbox := String.eqb type "checkbox";
     isRadio := String.eqb type "radio" |}.

(** Which field callbacks a [register] was given. *)
Record field_callbacks : Type := {
  has_onChange : bool;
  has_onBlur : bool;
  has_onFocus : bool
}.

(** The event the change handler listens to. *)
Definition primary_event (u : input_kind) : string :=
  if isInput u || isSelect u || isTextarea u then "input" else "change".

(** *** Paths that write over one another

    A path is the list of its segments.  [_set] along a path replaces
    what a prefix of the path holds when that is not an object, and what
    the path itself and its extensions held: two paths can disturb each
    other only when one is a prefix of the other. *)
Fixpoint is_prefix (p q : list string) : bool :=
  match p, q with
  | [], _ => true
  | _ :: _, [] => false
  | x :: p', y :: q' => String.eqb x y && is_prefix p' q'
  end.

Definition comparable (p q : list string) : bool := is_prefix p q || is_prefix q p.

(** The keys [k] and [f], read as dotted paths, name the same path or
    one names a prefix of the other. *)
Definition overlaps (k f : string) : bool := comparable (split_dots k) (split_dots f).


(** The object with the properties [ps] holds [x] at the end of [path],
    every step of the way but the last being an object. *)
Fixpoint holds (ps : props) (path : list string) (x : value) : Prop :=
  match path with
  | [] => False
  | key :: rest =>
      match rest with
      | [] => own_get ps key = Some x
      | _ :: _ =>
          exists (k : kind) (inner : props),
            own_get ps key = Some (VObj k inner) /\ holds inner rest x
      end
  end.


(* ================================================================== *)
(** ** The [.gts] revision of the component *)

Module Gts.

(** The tracked fields of the component. *)
Record store : Type := {
  values : props;
  isSubmitSuccessful : option bool;
  isSubmitted : bool;
  isSubmitting : bool;
  isValidating : bool;
  submitCount : nat;
  nativeValidations : props;
  errors : props;
  dirtyFields : props;
  parsers : parser_registry;
  rollbackValues : props
}.

(** A callback of the integrator gets the API and may use it: it maps
    the store to the store it leaves, and returns or throws. *)
Definition callback : Type := store -> store * outcome.

(** [this.args]. *)
Record args : Type := {
  validator : option (props -> props -> settled);
  arg_onSubmit : option callback;
  handler : option callback;
  arg_handleOn : option (list HandlerEvent);
  arg_validateOn : option (list HandlerEvent);
  arg_revalidateOn : option (list HandlerEvent)
}.

(** What a call of the component does to the integrator's code. *)
Inductive call : Type :=
| PreventDefault
| CallOnSubmit
| CallHandler.

Definition set_values (st : store) (v : props) : store :=
  {| values := v; isSubmitSuccessful := isSubmitSuccessful st;
     isSubmitted := isSubmitted st; isSubmitting := isSubmitting st;
     isValidating := isValidating st; submitCount := submitCount st;
     nativeValidations := nativeValidations st; errors := errors st;
     dirtyFields := dirtyFields st; parsers := parsers st;
     rollbackValues := rollbackValues st |}.

Definition set_errors (st : store) (e : props) : store :=
  {| values := values st; isSubmitSuccessful := isSubmitSuccessful st;
     isSubmitted := isSubmitted st; isSubmitting := isSubmitting st;
     isValidating := isValidating st; submitCount := submitCount st;
     nativeValidations := nativeValidations st; errors := e;
     dirtyFields := dirtyFields st; parsers := parsers st;
     rollbackValues := rollbackValues st |}.

Definition set_dirtyFields (st : store) (d : props) : store :=
  {| values := values st; isSubmitSuccessful := isSubmitSuccessful st;
     isSubmitted := isSubmitted st; isSubmitting := isSubmitting st;
     isValidating := isValidating st; submitCount := submitCount st;
     nativeValidations := nativeValidations st; errors := errors st;
     dirtyFields := d; parsers := parsers st;
     rollbackValues := rollbackValues st |}.

Definition set_rollbackValues (st : store) (r : props) : store :=
  {| values := values st; isSubmitSuccessful := isSubmitSuccessful st;
     isSubmitted := isSubmitted st; isSubmitting := isSubmitting st;
     isValidating := isValidating st; submitCount := submitCount st;
     nativeValidations := nativeValidations st; errors := errors st;
     dirtyFields := dirtyFields st; parsers := parsers st;
     rollbackValues := r |}.

Definition set_isSubmitted (st : store) (b : bool) : store :=
  {| values := values st; isSubmitSuccessful := isSubmitSuccessful st;
     isSubmitted := b; isSubmitting := isSubmitting st;
     isValidating := isValidating st; submitCount := submitCount st;
     nativeValidations := nativeValidations st; errors := errors st;
     dirtyFields := dirtyFields st; parsers := parsers st;
     rollbackValues := rollbackValues st |}.

Definition set_isSubmitting (st : store) (b : bool) : store :=
  {| values := values st; isSubmitSuccessful := isSubmitSuccessful st;
     isSubmitted := isSubmitted st; isSubmitting := b;
     isValidating := isValidating st; submitCount := submitCount st;
     nativeValidations := nativeValidations st; errors := errors st;
     dirtyFields := dirtyFields st; parsers := parsers st;
     rollbackValues := rollbackValues st |}.

Definition set_isValidating (st : store) (b : bool) : store :=
  {| values := values st; isSubmitSuccessful := isSubmitSuccessful st;
     isSubmitted := isSubmitted st; isSubmitting := isSubmitting st;
     isValidating := b; submitCount := submitCount st;
     nativeValidations := nativeValidations st; errors := errors st;
     dirtyFields := dirtyFields st; parsers := parsers st;
     rollbackValues := rollbackValues st |}.

Definition set_isSubmitSuccessful (st : store) (b : option bool) : store :=
  {| values := values st; isSubmitSuccessful := b;
     isSubmitted := isSubmitted st; isSubmitting := isSubmitting st;
     isValidating := isValidating st; submitCount := submitCount st;
     nativeValidations := nativeValidations st; errors := errors st;
     dirtyFields := dirtyFields st; parsers := parsers st;
     rollbackValues := rollbackValues st |}.

Definition set_submitCount (st : store) (n : nat) : store :=
  {| values := values st; isSubmitSuccessful := isSubmitSuccessful st;
     isSubmitted := isSubmitted st; isSubmitting := isSubmitting st;
     isValidating := isValidating st; submitCount := n;
     nativeValidations := nativeValidations st; errors := errors st;
     dirtyFields := dirtyFields st; parsers := parsers st;
     rollbackValues := rollbackValues st |}.

Definition set_registries (st : store) (p : parser_registry) (n : props) : store :=
  {| values := values st; isSubmitSuccessful := isSubmitSuccessful st;
     isSubmitted := isSubmitted st; isSubmitting := isSubmitting st;
     isValidating := isValidating st; submitCount := submitCount st;
     nativeValidations := n; errors := errors st;
     dirtyFields := dirtyFields st; parsers := p;
     rollbackValues := rollbackValues st |}.

(** The component as its field initialisers leave it: both bags are deep
    copies of [args.values]. *)
Definition create (vals : props) : store :=
  {| values := clone_props vals; isSubmitSuccessful := None;
     isSubmitted := false; isSubmitting := false; isValidating := false;
     submitCount := 0; nativeValidations := []; errors := [];
     dirtyFields := []; parsers := [];
     rollbackValues := clone_props vals |}.

(** The options of [rollback]; an option left out is [false], a
    [defaultValue] left out is [undefined]. *)
Record RollbackContext : Type := {
  keepError : bool;
  keepDirty : bool;
  defaultValue : value
}.

Definition no_context : RollbackContext :=
  {| keepError := false; keepDirty := false; defaultValue := VUndef |}.

Record SetContext : Type := {
  shouldValidate : bool;
  shouldDirty : bool
}.


(** A validation whose validator has been called and whose promise is
    still to settle. *)
Record pending : Type := {
  p_field : option string;
  p_result : settled
}.

Section Component.

Context (H : host) (a : args).

(** Modelled from the spec: [formatValue] of [-private/utils] is not among
    the sources.  Section 4.2 gives it: at most one directive per field,
    custom formatter > numeric coercion > date coercion > boolean
    coercion > identity, which is also the inline code of the classic
    revision's [parsedValues]. *)
Definition formatValue (v : value) (p : option parser) : value :=
  applyDirective H p v.

Definition isValid (st : store) : bool := _isEmpty (obj (errors st)).

Definition isInvalid (st : store) : bool := negb (isValid st).

Definition invalidFields (st : store) : props := invalid_of (errors st).

Definition isPristine (st : store) : bool := _isEmpty (obj (dirtyFields st)).

Definition isDirty (st : store) : bool := negb (isPristine st).

Definition handleOn : list HandlerEvent :=
  match arg_handleOn a with Some l => l | None => [onSubmit] end.

Definition validateOn : list HandlerEvent :=
  match arg_validateOn a with Some l => l | None => [onBlur; onSubmit] end.

Definition revalidateOn : list HandlerEvent :=
  match arg_revalidateOn a with Some l => l | None => [onChange; onSubmit] end.

(** [parsedValues], by value: the view is a new object and the stored
    objects it is made of are copies.  ([ByRef.parsedValues] has the
    writes lodash [set] makes into the stored objects.) *)
Definition parsedValues (st : store) : props :=
  fold_left
    (fun o kv => _set o (fst kv) (formatValue (snd kv) (parser_for (parsers st) (fst kv))))
    (values st) [].

(** [rollback], by value: for a field, the value restored is a copy of
    what the snapshot holds.  ([ByRef.rollback] stores the object
    itself, as the code does.) *)
Definition rollback (st : store) (field : option string) (ctx : RollbackContext)
  : store :=
  match field_given field with
  | Some f =>
      let st1 :=
        set_values st
          (own_set (values st) f
             (coalesce (defaultValue ctx)
                (coalesce (prop (rollbackValues st) f) VUndef))) in
      let st2 :=
        if toBoolean (defaultValue ctx)
        then set_rollbackValues st1 (own_set (rollbackValues st1) f (defaultValue ctx))
        else st1 in
      let st3 := if keepError ctx then st2 else set_errors st2 (_unset (errors st2) f) in
      if keepDirty ctx then st3 else set_dirtyFields st3 (_unset (dirtyFields st3) f)
  | None =>
      let st1 := set_values st (clone_props (rollbackValues st)) in
      let st2 := if keepError ctx then st1 else set_errors st1 [] in
      let st3 := if keepDirty ctx then st2 else set_dirtyFields st2 [] in
      set_isSubmitted st3 false
  end.

Definition getFieldState (st : store) (name : string) : FieldState.t :=
  fieldState (dirtyFields st) (errors st) name.

Definition getValue (st : store) (field : string) : value :=
  get (parsedValues st) field.

Definition getValues (st : store) : props := parsedValues st.

Definition getDefaultValue (st : store) (field : string) : value :=
  get (rollbackValues st) field.

Definition setError (st : store) (field : string) (e : error_arg) : store :=
  set_errors st (append_error (errors st) field (error_record e (getValue st field))).

Definition clearError (st : store) (field : string) : store :=
  if toBoolean (prop (errors st) field)
  then set_errors st (_unset (errors st) field)
  else st.

Definition clearErrors (st : store) : store := set_errors st [].


(** The store side of [register]: the parse directive and the native
    constraints of the field are recorded. *)
Definition register (st : store) (name : string) (p : parser) (constraints : value)
  : store :=
  set_registries st (set_parser (parsers st) name p)
    (own_set (nativeValidations st) name constraints).

(** [dirtyField], by value: reading the parsed view leaves the snapshot
    as it is.  ([ByRef.dirtyField] reads the snapshot first and compares
    after the view is built.) *)
Definition dirtyField (st : store) (field : string) : store :=
  set_dirtyFields st
    (own_set (dirtyFields st) field
       (VBool (negb (_isEqual (get (rollbackValues st) field)
                              (get (parsedValues st) field))))).

Definition shouldValidateOrRevalidate (st : store) (eventType : HandlerEvent) : bool :=
  if Nat.ltb 0 (submitCount st) then includes revalidateOn eventType
  else includes validateOn eventType.

(** [validate] up to its [await]: the flag is raised and the validator,
    when there is one, is called with the parsed values. *)
Definition validate_begin (st : store) (field : option string)
  : store * option pending :=
  let st1 := set_isValidating st true in
  match validator a with
  | None => (set_isValidating st1 false, None)
  | Some v =>
      (st1, Some {| p_field := field;
                    p_result := v (parsedValues st1) (nativeValidations st1) |})
  end.

(** [validate] after its [await], on the store as it is by then. *)
Definition validate_settle (st : store) (p : pending) : store * outcome :=
  match p_result p with
  | Resolved validation =>
      (set_isValidating
         (set_errors st (apply_validation (errors st) (p_field p) validation)) false,
       Returned)
  | Rejected => (set_isValidating st false, Threw)
  end.

(** A validation that nothing interleaves with. *)
Definition validate (st : store) (field : option string) : store * outcome :=
  match validate_begin st field with
  | (st1, None) => (st1, Returned)
  | (st1, Some p) => validate_settle st1 p
  end.

Definition setValue (st : store) (field : string) (v : value) (ctx : SetContext)
  : store * outcome :=
  let st1 := set_values st (own_set (values st) field v) in
  let st2 := if shouldDirty ctx then dirtyField st1 field else st1 in
  if shouldValidate ctx then validate st2 (Some field) else (st2, Returned).

Definition rollbackInvalid (st : store) (ctx : RollbackContext) : store * outcome :=
  match validate st None with
  | (st1, Returned) =>
      (fold_left (fun s field => rollback s (Some field) ctx)
         (keys (invalidFields st1)) st1, Returned)
  | (st1, Threw) => (st1, Threw)
  end.

(** The [finally] block of [submit]. *)
Definition submit_finally (st : store) : store :=
  set_submitCount (set_isSubmitting st false) (S (submitCount st)).

(** [submit], with nothing interleaved at its [await]: the store it
    leaves, the integrator's code it called, and how it ended.
    ([submit_begin] and [submit_resume] are its two halves.) *)
Definition submit (st : store) : store * list call * outcome :=
  let st1 := set_isSubmitted (set_isSubmitting st true) true in
  let '(st2, validated) :=
    if shouldValidateOrRevalidate st1 onSubmit then validate st1 None
    else (st1, Returned) in
  match validated with
  | Threw => (submit_finally st2, [PreventDefault], Threw)
  | Returned =>
      let st3 := set_isSubmitSuccessful st2 (Some (isValid st2)) in
      if negb (isValid st2) then (submit_finally st3, [PreventDefault], Returned)
      else
        match arg_onSubmit a with
        | Some f =>
            let '(st4, r) := f st3 in
            (submit_finally st4, [PreventDefault; CallOnSubmit], r)
        | None =>
            match (if includes handleOn onSubmit then handler a else None) with
            | Some g =>
                let '(st4, r) := g st3 in
                (submit_finally st4, [PreventDefault; CallHandler], r)
            | None => (submit_finally st3, [PreventDefault], Returned)
            end
        end
  end.

(** *** Validations in flight

    [validate] is an [async] method: between its call and the moment the
    validator's promise settles, other calls run.  A world is the store
    with the validations still in flight, oldest first. *)
Record world : Type := {
  w_store : store;
  in_flight : list pending
}.

Inductive action : Type :=
| Request (field : option string)      (* [validate(field)] is called *)
| Settle (i : nat)                     (* the promise of the i-th in flight settles *)
| Write (field : string) (v : value).  (* [setValue(field, v)] *)

Fixpoint remove_nth {A : Type} (i : nat) (l : list A) : list A :=
  match i, l with
  | _, [] => []
  | O, _ :: rest => rest
  | S j, x :: rest => x :: remove_nth j rest
  end.

Definition step (w : world) (act : action) : world :=
  match act with
  | Request field =>
      let '(st1, started) := validate_begin (w_store w) field in
      {| w_store := st1;
         in_flight := in_flight w ++ match started with Some p => [p] | None => [] end |}
  | Settle i =>
      match nth_error (in_flight w) i with
      | Some p =>
          {| w_store := fst (validate_settle (w_store w) p);
             in_flight := remove_nth i (in_flight w) |}
      | None => w
      end
  | Write field v =>
      {| w_store :=
           fst (setValue (w_store w) field v
                  {| shouldValidate := false; shouldDirty := false |});
         in_flight := in_flight w |}
  end.

Definition run (w : world) (acts : list action) : world := fold_left step acts w.

(** [errorMessages]: the falsy entries are dropped ("useful after a
    clearError"), then the message of each error is read; the development
    warning about a missing message is left out. *)
Definition errorMessages (st : store) : list value :=
  map (fun err => getProp err "message") (filter toBoolean (flat_values (errors st))).

(** *** The listeners [register] installs and its teardown removes

    The classification of the element comes from [inputUtils] of
    [-private/utils], which is not among the sources: it is taken as
    given.  The conditions read the store, at the time they run. *)
Definition register_listeners (st : store) (u : input_kind) (cb : field_callbacks)
  (owner : nat) (ls : list listener) : list listener :=
  if negb (isFormInput u) then ls
  else
    let ls1 := addEventListener ls (primary_event u) owner HandleChange in
    let ls2 := addEventListener ls1 "invalid" owner HandleInvalid in
    let ls3 := if has_onBlur cb || shouldValidateOrRevalidate st onBlur
                  || includes handleOn onBlur
               then addEventListener ls2 "blur" owner HandleBlur else ls2 in
    if has_onFocus cb || shouldValidateOrRevalidate st onFocus
       || includes handleOn onFocus
    then addEventListener ls3 "focusin" owner HandleFocus else ls3.

Definition register_teardown (st : store) (u : input_kind) (cb : field_callbacks)
  (owner : nat) (ls : list listener) : list listener :=
  if negb (isFormInput u) then ls
  else
    let ls1 := removeEventListener ls (primary_event u) owner HandleChange in
    let ls2 := removeEventListener ls1 "invalid" owner HandleInvalid in
    let ls3 := if has_onBlur cb || shouldValidateOrRevalidate st onBlur
                  || includes handleOn onBlur
               then removeEventListener ls2 "blur" owner HandleBlur else ls2 in
    if has_onFocus cb || shouldValidateOrRevalidate st onFocus
       || includes handleOn onFocus
    then removeEventListener ls3 "focus" owner HandleFocus else ls3.

(** *** [submit] around its [await]

    [submit] is an [async] method as well.  When the submit event
    triggers validation it calls [validate()] and awaits it; what it then
    reads, [isValid], is read on the store as it is when it runs on. *)

(** [submit] up to its [await]: the flags are raised and, when the submit
    event triggers validation, [validate()] is called.  [Some started] is
    what the submit awaits: the validation it called, which is in flight
    ([Some p]) or has returned for want of a validator ([None]). *)
Definition submit_begin (st : store) : store * option (option pending) :=
  let st1 := set_isSubmitted (set_isSubmitting st true) true in
  if shouldValidateOrRevalidate st1 onSubmit
  then let '(st2, started) := validate_begin st1 None in (st2, Some started)
  else (st1, None).

(** [submit] from the point where it reads [isValid] to the end of its
    [finally], on the store as it is by then: the store it leaves, the
    callbacks it called, and how it ended. *)
Definition submit_resume (st : store) : store * list call * outcome :=
  let st3 := set_isSubmitSuccessful st (Some (isValid st)) in
  if negb (isValid st) then (submit_finally st3, [], Returned)
  else
    match arg_onSubmit a with
    | Some f => let '(st4, r) := f st3 in (submit_finally st4, [CallOnSubmit], r)
    | None =>
        match (if includes handleOn onSubmit then handler a else None) with
        | Some g => let '(st4, r) := g st3 in (submit_finally st4, [CallHandler], r)
        | None => (submit_finally st3, [], Returned)
        end
    end.

(** A submit among other calls.  A session is the store with the
    validations in flight, each marked when a submit awaits it, the
    submits that have been woken and have not run on yet (a woken [async]
    function runs on in a later microtask), and the integrator's code
    called so far. *)
Record session : Type := {
  s_store : store;
  s_in_flight : list (pending * bool);
  s_woken : list outcome;
  s_calls : list call
}.

Inductive event : Type :=
| DoValidate (field : option string)   (* [validate(field)] is called *)
| DoWrite (field : string) (v : value) (* [setValue(field, v)] *)
| DoSubmit                             (* [submit(event)] is called *)
| DoSettle (i : nat)                   (* the promise of the i-th in flight settles *)
| DoResume.                            (* the submit woken first runs on *)

Definition react (s : session) (e : event) : session :=
  match e with
  | DoValidate field =>
      let '(st1, started) := validate_begin (s_store s) field in
      {| s_store := st1;
         s_in_flight := s_in_flight s
                        ++ match started with Some p => [(p, false)] | None => [] end;
         s_woken := s_woken s; s_calls := s_calls s |}
  | DoWrite field v =>
      {| s_store := fst (setValue (s_store s) field v
                           {| shouldValidate := false; shouldDirty := false |});
         s_in_flight := s_in_flight s; s_woken := s_woken s; s_calls := s_calls s |}
  | DoSubmit =>
      match submit_begin (s_store s) with
      | (st1, None) =>
          let '(st2, calls, _) := submit_resume st1 in
          {| s_store := st2; s_in_flight := s_in_flight s; s_woken := s_woken s;
             s_calls := s_calls s ++ PreventDefault :: calls |}
      | (st1, Some None) =>
          {| s_store := st1; s_in_flight := s_in_flight s;
             s_woken := s_woken s ++ [Returned];
             s_calls := s_calls s ++ [PreventDefault] |}
      | (st1, Some (Some p)) =>
          {| s_store := st1; s_in_flight := s_in_flight s ++ [(p, true)];
             s_woken := s_woken s; s_calls := s_calls s ++ [PreventDefault] |}
      end
  | DoSettle i =>
      match nth_error (s_in_flight s) i with
      | Some (p, awaited) =>
          let '(st1, how) := validate_settle (s_store s) p in
          {| s_store := st1; s_in_flight := remove_nth i (s_in_flight s);
             s_woken := s_woken s ++ (if awaited then [how] else []);
             s_calls := s_calls s |}
      | None => s
      end
  | DoResume =>
      match s_woken s with
      | [] => s
      | Returned :: rest =>
          let '(st1, calls, _) := submit_resume (s_store s) in
          {| s_store := st1; s_in_flight := s_in_flight s; s_woken := rest;
             s_calls := s_calls s ++ calls |}
      | Threw :: rest =>
          {| s_store := submit_finally (s_store s); s_in_flight := s_in_flight s;
             s_woken := rest; s_calls := s_calls s |}
      end
  end.

Definition replay (s : session) (events : list event) : session :=
  fold_left react events s.


End Component.

End Gts.

(* ================================================================== *)
(** ** The component of [components/formidable/index.ts] *)

(** The ember-data record the component may be given in place of a plain
    object: an external collaborator, known by the operations the
    component uses on it. *)
Class RecordOps (R : Type) : Type := {
  (** Ember's [get(record, key)]. *)
  record_get : R -> string -> value;
  (** [record.set(key, value)]. *)
  record_set : R -> string -> value -> R;
  (** [record[key] = value]. *)
  record_assign : R -> string -> value -> R;
  (** The keys [record.eachAttribute] visits. *)
  record_attributes : R -> list string;
  (** [record.belongsTo(key).value()] when [record.relationshipFor(key)]
      is a belongsTo relationship. *)
  record_belongsTo : R -> string -> option value
}.

Module Classic.

(** [this.values]: a tracked plain object, or the record itself. *)
Inductive source (R : Type) : Type :=
| Plain (ps : props)
| Model (r : R).

Arguments Plain {R} ps.
Arguments Model {R} r.

Section Component.

Context {R : Type} {ops : RecordOps R}.

Record store : Type := {
  values : source R;
  isSubmitSuccessful : option bool;
  isSubmitted : bool;
  submitCount : nat;
  validations : props;
  errors : props;
  dirtyFields : props;
  parsers : parser_registry;
  rollbackValues : props
}.

Definition callback : Type := store -> store * outcome.

(** [this.args]; [arg_values] is the plain object or the record given. *)
Record args : Type := {
  validator : option (source R -> props -> settled);
  arg_onValuesChanged : option callback;
  arg_onSubmit : option callback;
  arg_updateEvents : option (list HandlerEvent);
  shouldUseNativeValidation : bool
}.

Inductive call : Type :=
| PreventDefault
| CallOnSubmit
| CallOnValuesChanged.

Record RollbackContext : Type := {
  keepError : bool;
  keepDirty : bool;
  defaultValue : value
}.

Definition no_context : RollbackContext :=
  {| keepError := false; keepDirty := false; defaultValue := VUndef |}.

Record SetValueContext : Type := {
  shouldValidate : bool;
  shouldDirty : bool
}.

(** An instance of the [validate] task suspended at its [yield]. *)
Record pending : Type := {
  p_field : option string;
  p_result : settled
}.

Definition set_values (st : store) (v : source R) : store :=
  {| values := v; isSubmitSuccessful := isSubmitSuccessful st;
     isSubmitted := isSubmitted st; submitCount := submitCount st;
     validations := validations st; errors := errors st;
     dirtyFields := dirtyFields st; parsers := parsers st;
     rollbackValues := rollbackValues st |}.

Definition set_errors (st : store) (e : props) : store :=
  {| values := values st; isSubmitSuccessful := isSubmitSuccessful st;
     isSubmitted := isSubmitted st; submitCount := submitCount st;
     validations := validations st; errors := e;
     dirtyFields := dirtyFields st; parsers := parsers st;
     rollbackValues := rollbackValues st |}.

Definition set_dirtyFields (st : store) (d : props) : store :=
  {| values := values st; isSubmitSuccessful := isSubmitSuccessful st;
     isSubmitted := isSubmitted st; submitCount := submitCount st;
     validations := validations st; errors := errors st;
     dirtyFields := d; parsers := parsers st;
     rollbackValues := rollbackValues st |}.

Definition set_isSubmitted (st : store) (b : bool) : store :=
  {| values := values st; isSubmitSuccessful := isSubmitSuccessful st;
     isSubmitted := b; submitCount := submitCount st;
     validations := validations st; errors := errors st;
     dirtyFields := dirtyFields st; parsers := parsers st;
     rollbackValues := rollbackValues st |}.

Definition set_isSubmitSuccessful (st : store) (b : option bool) : store :=
  {| values := values st; isSubmitSuccessful := b;
     isSubmitted := isSubmitted st; submitCount := submitCount st;
     validations := validations st; errors := errors st;
     dirtyFields := dirtyFields st; parsers := parsers st;
     rollbackValues := rollbackValues st |}.

Definition set_submitCount (st : store) (n : nat) : store :=
  {| values := values st; isSubmitSuccessful := isSubmitSuccessful st;
     isSubmitted := isSubmitted st; submitCount := n;
     validations := validations st; errors := errors st;
     dirtyFields := dirtyFields st; parsers := parsers st;
     rollbackValues := rollbackValues st |}.

Definition set_registries (st : store) (p : parser_registry) (v : props) : store :=
  {| values := values st; isSubmitSuccessful := isSubmitSuccessful st;
     isSubmitted := isSubmitted st; submitCount := submitCount st;
     validations := v; errors := errors st;
     dirtyFields := dirtyFields st; parsers := p;
     rollbackValues := rollbackValues st |}.

(** The constructor: the snapshot of a record holds each attribute, an
    object-valued one deep-copied; the snapshot of a plain object is its
    deep copy.  The plain object itself is only wrapped. *)
Definition create (vals : source R) : store :=
  {| values := vals; isSubmitSuccessful := None; isSubmitted := false;
     submitCount := 0; validations := []; errors := []; dirtyFields := [];
     parsers := [];
     rollbackValues :=
       match vals with
       | Model r =>
           fold_left
             (fun snapshot key =>
                let v := record_get r key in
                own_set snapshot key (if isObject v then _cloneDeep v else v))
             (record_attributes r) []
       | Plain ps => clone_props ps
       end |}.

Context (H : host) (a : args).

Definition isModel (st : store) : bool :=
  match values st with Model _ => true | Plain _ => false end.

Definition isValid (st : store) : bool := _isEmpty (obj (errors st)).

Definition isInvalid (st : store) : bool := negb (isValid st).

Definition invalidFields (st : store) : props := invalid_of (errors st).

Definition isPristine (st : store) : bool := _isEmpty (obj (dirtyFields st)).

Definition isDirty (st : store) : bool := negb (isPristine st).

Definition updateEvents : list HandlerEvent :=
  match arg_updateEvents a with Some l => l | None => [onSubmit] end.

(** A record is returned as it is; the entries of a plain object go
    through the directive of their key. *)
Definition parsedValues (st : store) : source R :=
  match values st with
  | Model r => Model r
  | Plain ps => Plain (parse_entries H (parsers st) ps)
  end.

Definition rollback (st : store) (name : option string) (ctx : RollbackContext)
  : store :=
  match field_given name with
  | Some n =>
      let v := coalesce (defaultValue ctx)
                 (coalesce (prop (rollbackValues st) n) VUndef) in
      let st1 :=
        set_values st
          match values st with
          | Plain ps => Plain (own_set ps n v)
          | Model r => Model (record_assign r n v)
          end in
      let st2 := if keepError ctx then st1
                 else set_errors st1 (own_delete (errors st1) n) in
      if keepDirty ctx then st2
      else set_dirtyFields st2 (own_delete (dirtyFields st2) n)
  | None =>
      let st1 :=
        set_values st
          match values st with
          | Model r =>
              Model (fold_left (fun rec kv => record_set rec (fst kv) (snd kv))
                       (rollbackValues st) r)
          | Plain _ => Plain (clone_props (rollbackValues st))
          end in
      let st2 := if keepError ctx then st1 else set_errors st1 [] in
      let st3 := if keepDirty ctx then st2 else set_dirtyFields st2 [] in
      set_isSubmitted st3 false
  end.

Definition getFieldState (st : store) (name : string) : FieldState.t :=
  fieldState (dirtyFields st) (errors st) name.

Definition getValue (st : store) (key : string) : value :=
  match parsedValues st with
  | Model r =>
      match record_belongsTo r key with
      | Some related => related
      | None => record_get r key
      end
  | Plain ps => get ps key
  end.

Definition getValues (st : store) : source R := parsedValues st.

(** The validation a [perform] of the [validate] task starts: nothing
    without a validator, else the task suspended on the validator's
    promise. *)
Definition validate_begin (st : store) (field : option string) : option pending :=
  match validator a with
  | None => None
  | Some v =>
      Some {| p_field := field; p_result := v (parsedValues st) (validations st) |}
  end.

(** The task resumed with what the promise settled to. *)
Definition validate_settle (st : store) (p : pending) : store * outcome :=
  match p_result p with
  | Resolved validation =>
      (set_errors st (apply_validation (errors st) (p_field p) validation), Returned)
  | Rejected => (st, Threw)
  end.

(** A run of the task that nothing interleaves with. *)
Definition validate (st : store) (field : option string) : store * outcome :=
  match validate_begin st field with
  | None => (st, Returned)
  | Some p => validate_settle st p
  end.

(** [setValue]; the validation it may start is performed, not awaited. *)
Definition setValue (st : store) (key : string) (v : value) (ctx : SetValueContext)
  : store * option pending :=
  let st1 :=
    set_values st
      match values st with
      | Model r =>
          let _value :=
            match parser_for (parsers st) key with
            | Some p =>
                if valueAsNumber p then unary_plus H (coalesce v (VStr ""))
                else if valueAsDate p then new_Date H (template H v)
                else if valueAsBoolean p then VBool (toBoolean v)
                else match valueFormat p with
                     | Some format => format v
                     | None => v
                     end
            | None => v
            end in
          Model (record_set r key _value)
      | Plain ps => Plain (own_set ps key v)
      end in
  let st2 := if shouldDirty ctx
             then set_dirtyFields st1 (own_set (dirtyFields st1) key (VBool true))
             else st1 in
  (st2, if shouldValidate ctx then validate_begin st2 (Some key) else None).

Definition setError (st : store) (key : string) (e : error_arg) : store :=
  set_errors st (append_error (errors st) key (error_record e VUndef)).

Definition clearError (st : store) (key : string) : store :=
  set_errors st (_set (errors st) key VUndef).

Definition clearErrors (st : store) : store := set_errors st [].

(** The store side of [register]. *)
Definition register (st : store) (name : string) (p : parser) (constraints : value)
  : store :=
  set_registries st (set_parser (parsers st) name p)
    (if shouldUseNativeValidation a
     then own_set (validations st) name constraints
     else validations st).

(** The [submit] task, with nothing interleaved at its [yield]. *)
Definition submit (st : store) : store * list call * outcome :=
  let st1 := set_submitCount (set_isSubmitted st true) (S (submitCount st)) in
  let '(st2, validated) :=
    if includes updateEvents onSubmit then validate st1 None else (st1, Returned) in
  match validated with
  | Threw => (st2, [PreventDefault], Threw)
  | Returned =>
      let st3 := set_isSubmitSuccessful st2 (Some (isValid st2)) in
      if negb (isValid st2) then (st3, [PreventDefault], Returned)
      else
        match arg_onSubmit a with
        | Some f =>
            let '(st4, r) := f st3 in (st4, [PreventDefault; CallOnSubmit], r)
        | None =>
            match (if includes updateEvents onSubmit
                   then arg_onValuesChanged a else None) with
            | Some g =>
                let '(st4, r) := g st3 in
                (st4, [PreventDefault; CallOnValuesChanged], r)
            | None => (st3, [PreventDefault], Returned)
            end
        end
  end.

(** *** The restartable [validate] task

    ember-concurrency runs at most one instance of a restartable task:
    performing it cancels the instance that is running, which then never
    resumes from its [yield]. *)
Record world : Type := {
  w_store : store;
  running : option pending
}.

Inductive action : Type :=
| Perform (field : option string)      (* [taskFor(this.validate).perform(field)] *)
| Settle                               (* the promise of the running instance settles *)
| Write (key : string) (v : value).    (* [setValue(key, v)] *)

Definition step (w : world) (act : action) : world :=
  match act with
  | Perform field =>
      {| w_store := w_store w; running := validate_begin (w_store w) field |}
  | Settle =>
      match running w with
      | Some p => {| w_store := fst (validate_settle (w_store w) p); running := None |}
      | None => w
      end
  | Write key v =>
      {| w_store :=
           fst (setValue (w_store w) key v
                  {| shouldValidate := false; shouldDirty := false |});
         running := running w |}
  end.

Definition run (w : world) (acts : list action) : world := fold_left step acts w.

Definition isValidating (w : world) : bool :=
  match running w with Some _ => true | None => false end.

(** [errorMessages]: [err.message] of each flattened entry; reading it
    off [undefined] or [null] throws, which is [None]. *)
Definition errorMessages (st : store) : option (list value) :=
  if existsb nullish (flat_values (errors st)) then None
  else Some (map (fun err => getProp err "message") (flat_values (errors st))).

(** *** The listeners [register] installs and its teardown removes *)

(** The listener side of [register]: nothing on an element that is not a
    form input; else the change handler, the [invalid] handler, and the
    blur and focus handlers when a field callback or [updateEvents] asks
    for them. *)
Definition register_listeners (u : input_kind) (cb : field_callbacks) (owner : nat)
  (ls : list listener) : list listener :=
  if negb (isFormInput u) then ls
  else
    let ls1 := addEventListener ls (primary_event u) owner HandleChange in
    let ls2 := addEventListener ls1 "invalid" owner HandleInvalid in
    let ls3 := if has_onBlur cb || includes updateEvents onBlur
               then addEventListener ls2 "blur" owner HandleBlur else ls2 in
    if has_onFocus cb || includes updateEvents onFocus
    then addEventListener ls3 "focusin" owner HandleFocus else ls3.

(** The function [register] returns, run on the listeners of the
    element; [register] returns none for an element that is not a form
    input. *)
Definition register_teardown (u : input_kind) (cb : field_callbacks) (owner : nat)
  (ls : list listener) : list listener :=
  if negb (isFormInput u) then ls
  else
    let ls1 := removeEventListener ls (primary_event u) owner HandleChange in
    let ls2 := removeEventListener ls1 "invalid" owner HandleInvalid in
    let ls3 := if has_onBlur cb || includes updateEvents onBlur
               then removeEventListener ls2 "blur" owner HandleBlur else ls2 in
    if has_onFocus cb || includes updateEvents onFocus
    then removeEventListener ls3 "focus" owner HandleFocus else ls3.

(** *** The change handler [register] installs *)

(** What a field handler calls of the integrator's code. *)
Inductive handler_call : Type :=
| CallFieldCallback
| CallValuesChanged.

(** [handleChange], with nothing interleaved at its [await]: without an
    event target it throws; else the field is marked dirty, the whole
    form is validated when [updateEvents] lists the change event, and
    only then is the value of the target written; the field callback,
    when given, is called in place of [onValuesChanged]. *)
Definition handleChange (st : store) (name : string) (target : option value)
  (onChange_cb : option callback) : store * list handler_call * outcome :=
  match target with
  | None => (st, [], Threw)
  | Some v =>
      let st1 := set_dirtyFields st (own_set (dirtyFields st) name (VBool true)) in
      let '(st2, validated) :=
        if includes updateEvents onChange then validate st1 None else (st1, Returned) in
      match validated with
      | Threw => (st2, [], Threw)
      | Returned =>
          let st3 := fst (setValue st2 name v
                            {| shouldValidate := false; shouldDirty := false |}) in
          match onChange_cb with
          | Some f => let '(st4, r) := f st3 in (st4, [CallFieldCallback], r)
          | None =>
              match (if includes updateEvents onChange
                     then arg_onValuesChanged a else None) with
              | Some g => let '(st4, r) := g st3 in (st4, [CallValuesChanged], r)
              | None => (st3, [], Returned)
              end
          end
      end
  end.

End Component.

Arguments store R : clear implicits.
Arguments args R : clear implicits.
Arguments callback R : clear implicits.

End Classic.

(* ================================================================== *)
(** ** Concrete collaborators, for running the model on examples *)

(** A record that keeps its attributes in an object and has no
    relationships. *)
#[export] Instance object_record : RecordOps props := {
  record_get := get;
  record_set := own_set;
  record_assign := own_set;
  record_attributes := keys;
  record_belongsTo := fun _ _ => None
}.

(** A host whose coercions are exact on the integers, the booleans,
    [null], [undefined] and the strings of decimal digits; the examples
    below use no other input. *)
Definition small_host : host := {|
  unary_plus := fun v =>
    match v with
    | VNum z => VNum z
    | VBool b => VNum (if b then 1 else 0)
    | VNull => VNum 0
    | VStr s =>
        if String.eqb s "" then VNum 0
        else if all_digits s then VNum (Z.of_N (digits_value s 0)) else VNaN
    | _ => VNaN
    end;
  new_Date := fun v =>
    match v with
    | VNum z => VObj (KDate (Some z)) []
    | VObj (KDate t) _ => VObj (KDate t) []
    | _ => VObj (KDate None) []
    end;
  template := fun v =>
    match v with
    | VStr s => VStr s
    | VUndef => VStr "undefined"
    | VNull => VStr "null"
    | VBool b => VStr (if b then "true" else "false")
    | _ => VStr "[object Object]"
    end
|}.

(** The first segment of a path. *)
Definition head_segment (path : string) : string := hd "" (split_dots path).

(** What the spec calls a non-empty error entry: a string with a
    character, an array with an element, any other object with a
    property. *)
Inductive nonempty_entry : value -> Prop :=
| nonempty_string (s : string) : s <> "" -> nonempty_entry (VStr s)
| nonempty_array (ps : props) :
    (0 < array_length ps)%N -> nonempty_entry (VObj KArray ps)
| nonempty_object (k : kind) (ps : props) :
    k <> KArray -> ps <> [] -> nonempty_entry (VObj k ps).

(** A form without a validator, over an object record. *)
Definition no_validator : Classic.args props :=
  {| Classic.validator := None; Classic.arg_onValuesChanged := None;
     Classic.arg_onSubmit := None; Classic.arg_updateEvents := None;
     Classic.shouldUseNativeValidation := false |}.

(** A form whose validator answers with one error under the path
    ["a.b"], whatever the values. *)
Definition nested_error : props :=
  [("a", obj [("b", arr [("0", error_record (Message "required") VUndef)])])].

Definition nested_validator : Classic.args props :=
  {| Classic.validator := Some (fun _ _ => Resolved nested_error);
     Classic.arg_onValuesChanged := None;
     Classic.arg_onSubmit := None; Classic.arg_updateEvents := None;
     Classic.shouldUseNativeValidation := false |}.

(** The parse directive [valueAsNumber=true]. *)
Definition as_number : parser :=
  {| valueAsNumber := true; valueAsDate := false; valueAsBoolean := false;
     valueFormat := None |}.


Definition plain_write : Classic.SetValueContext :=
  {| Classic.shouldValidate := false; Classic.shouldDirty := false |}.

(** A form of the later revision with no validator and no callback. *)
Definition quiet : Gts.args :=
  {| Gts.validator := None; Gts.arg_onSubmit := None; Gts.handler := None;
     Gts.arg_handleOn := None; Gts.arg_validateOn := None;
     Gts.arg_revalidateOn := None |}.

Definition required_error : value := error_record (Message "required") VUndef.

(** A validator that wants a non-empty ["foo"]. *)
Definition foo_required (parsed constraints : props) : settled :=
  if _isEmpty (get parsed "foo")
  then Resolved [("foo", arr [("0", required_error)])]
  else Resolved [].

(** A form of the later revision with that validator and both
    callbacks, which return without touching the store. *)
Definition guarded : Gts.args :=
  {| Gts.validator := Some foo_required;
     Gts.arg_onSubmit := Some (fun st => (st, Returned));
     Gts.handler := Some (fun st => (st, Returned));
     Gts.arg_handleOn := None; Gts.arg_validateOn := None;
     Gts.arg_revalidateOn := None |}.

(** The same form on the classic component. *)
Definition guarded_classic : Classic.args props :=
  {| Classic.validator :=
       Some (fun parsed constraints =>
               match parsed with
               | Classic.Plain ps => foo_required ps constraints
               | Classic.Model r => foo_required r constraints
               end);
     Classic.arg_onValuesChanged := None;
     Classic.arg_onSubmit := None; Classic.arg_updateEvents := None;
     Classic.shouldUseNativeValidation := false |}.

Definition dirty_write : Gts.SetContext :=
  {| Gts.shouldValidate := false; Gts.shouldDirty := true |}.

Definition quiet_write : Gts.SetContext :=
  {| Gts.shouldValidate := false; Gts.shouldDirty := false |}.

(** The callbacks of a form leave [submitCount] alone: they do not
    submit the form themselves. *)
Definition callbacks_keep_count (a : Gts.args) : Prop :=
  forall f : Gts.callback,
    Gts.arg_onSubmit a = Some f \/ Gts.handler a = Some f ->
    forall st, Gts.submitCount (fst (f st)) = Gts.submitCount st.

(** A form of the later revision whose validator always rejects. *)
Definition rejecting : Gts.args :=
  {| Gts.validator := Some (fun _ _ => Rejected);
     Gts.arg_onSubmit := Some (fun st => (st, Returned));
     Gts.handler := Some (fun st => (st, Returned));
     Gts.arg_handleOn := None; Gts.arg_validateOn := None;
     Gts.arg_revalidateOn := None |}.

(** A form of the later revision whose validator reports the street of
    the address, under the dotted key, whatever the values. *)
Definition street_required : Gts.args :=
  {| Gts.validator :=
       Some (fun _ _ => Resolved [("address.street", arr [("0", required_error)])]);
     Gts.arg_onSubmit := None; Gts.handler := None;
     Gts.arg_handleOn := None; Gts.arg_validateOn := None;
     Gts.arg_revalidateOn := None |}.


(** No listener of the list was made by this registration. *)
Definition fresh_owner (owner : nat) (ls : list listener) : Prop :=
  forall l, In l ls -> l_owner l <> owner.

Definition listener_of (ev : string) (owner : nat) (h : handler_kind) : listener :=
  {| l_event := ev; l_owner := owner; l_handler := h |}.

(** A text input. *)
Definition text_input : input_kind := inputUtils "INPUT" "text".

Definition no_callbacks : field_callbacks :=
  {| has_onChange := false; has_onBlur := false; has_onFocus := false |}.

Definition focus_callback : field_callbacks :=
  {| has_onChange := false; has_onBlur := false; has_onFocus := true |}.

(** The classic form that validates on change and wants a non-empty
    ["foo"]. *)
Definition validate_on_change : Classic.args props :=
  {| Classic.validator :=
       Some (fun parsed constraints =>
               match parsed with
               | Classic.Plain ps => foo_required ps constraints
               | Classic.Model r => foo_required r constraints
               end);
     Classic.arg_onValuesChanged := None;
     Classic.arg_onSubmit := None;
     Classic.arg_updateEvents := Some [onChange];
     Classic.shouldUseNativeValidation := false |}.


(** A form whose validator answers with the same error under the literal
    key ["a.b"]. *)
Definition flat_error : props := [("a.b", arr [("0", required_error)])].

Definition flat_validator : Classic.args props :=
  {| Classic.validator := Some (fun _ _ => Resolved flat_error);
     Classic.arg_onValuesChanged := None;
     Classic.arg_onSubmit := None; Classic.arg_updateEvents := None;
     Classic.shouldUseNativeValidation := false |}.


(** What the component counts on when it writes a record back: among
    the attributes [attrs], [record.set(k, v)] is read back by
    [get(record, k)] and leaves what [get] reads of the others. *)
Definition attribute_writes {R : Type} {ops : RecordOps R} (attrs : list string) : Prop :=
  (forall (r : R) (k : string) (v : value),
      In k attrs -> record_get (record_set r k v) k = v)
  /\ (forall (r : R) (k k' : string) (v : value),
        In k attrs -> In k' attrs -> k' <> k ->
        record_get (record_set r k v) k' = record_get r k').

(** [Object.entries(snapshot).forEach(([key, value]) => record.set(key, value))]. *)
Definition write_back {R : Type} {ops : RecordOps R} (snapshot : props) (r : R) : R :=
  fold_left (fun rec kv => record_set rec (fst kv) (snd kv)) snapshot r.


(** A form of the later revision with the validator that wants ["foo"]
    and a submit handler, on which the submit event triggers no
    validation. *)
Definition unchecked_submit : Gts.args :=
  {| Gts.validator := Some foo_required;
     Gts.arg_onSubmit := Some (fun st => (st, Returned));
     Gts.handler := None;
     Gts.arg_handleOn := None; Gts.arg_validateOn := Some [onBlur];
     Gts.arg_revalidateOn := Some [onChange] |}.

(** A session with nothing in flight. *)
Definition at_rest (st : Gts.store) : Gts.session :=
  {| Gts.s_store := st; Gts.s_in_flight := []; Gts.s_woken := []; Gts.s_calls := [] |}.


(** *** Calls that keep the snapshot apart

    In the component the two bags start as separate deep copies of
    [args.values]; [setValue] stores what its caller hands in, taken
    here to be an object of the caller's that the store does not hold
    yet; a whole-form rollback stores a new deep copy of the snapshot.
    A single-field rollback stores the default it is given or the
    snapshot's own value: when that is an object, the two bags share it
    from then on, and every later reading of the parsed view, which
    writes with lodash [set] into the objects it finds on its way, may
    write into the snapshot.  A history is a list of calls made on a new
    component; it keeps the snapshot apart when none of its single-field
    rollbacks restores an object. *)
Inductive operation : Type :=
| SetValue (field : string) (v : value) (ctx : Gts.SetContext)
| Rollback (ctx : Gts.RollbackContext)
| RollbackField (field : string) (ctx : Gts.RollbackContext)
| Register (name : string) (p : parser) (constraints : value)
| SetError (field : string) (e : error_arg)
| ClearError (field : string)
| ClearErrors
| Validate (field : option string).

Definition perform (H : host) (a : Gts.args) (st : Gts.store) (op : operation)
  : Gts.store :=
  match op with
  | SetValue field v ctx => fst (Gts.setValue H a st field v ctx)
  | Rollback ctx => Gts.rollback st None ctx
  | RollbackField field ctx => Gts.rollback st (Some field) ctx
  | Register name p constraints => Gts.register st name p constraints
  | SetError field e => Gts.setError H st field e
  | ClearError field => Gts.clearError st field
  | ClearErrors => Gts.clearErrors st
  | Validate field => fst (Gts.validate H a st field)
  end.



(** The store of a component made with [vals], after the calls. *)
Definition after_calls (H : host) (a : Gts.args) (vals : props) (calls : list operation)
  : Gts.store :=
  fold_left (perform H a) calls (Gts.create vals).

(* ================================================================== *)
(** ** The later revision with its objects held by reference

    In [Gts] a bag holds its objects by value.  The component holds
    them by reference, and two of its lines make that visible: the
    single-field [rollback] stores under [values[field]] the very object
    the snapshot holds, and [parsedValues] hands the stored objects to
    lodash [set], which writes into them.  This module keeps the objects
    in a heap, for the operations that store or read values; validation
    and the callbacks are left to [Gts]. *)

Module ByRef.

(** What a variable or a property holds: a primitive, or a reference to
    an object of the heap. *)
Inductive ref : Type :=
| Prim (v : value)
| Ref (l : nat).

Definition rprops : Type := list (string * ref).

Record cell : Type := {
  c_kind : kind;
  c_props : rprops
}.

Definition heap : Type := list cell.

(** Own properties, as [own_get] and [own_set] have them. *)
Fixpoint rget (ps : rprops) (key : string) : option ref :=
  match ps with
  | [] => None
  | (k, x) :: rest => if String.eqb k key then Some x else rget rest key
  end.

Fixpoint rreplace (ps : rprops) (key : string) (x : ref) : rprops :=
  match ps with
  | [] => []
  | (k, y) :: rest =>
      if String.eqb k key then (k, x) :: rest else (k, y) :: rreplace rest key x
  end.

Fixpoint rinsert (ps : rprops) (i : N) (key : string) (x : ref) : rprops :=
  match ps with
  | [] => [(key, x)]
  | (k, y) :: rest =>
      match array_index k with
      | Some j =>
          if N.ltb j i then (k, y) :: rinsert rest i key x
          else (key, x) :: (k, y) :: rest
      | None => (key, x) :: (k, y) :: rest
      end
  end.

Definition rset (ps : rprops) (key : string) (x : ref) : rprops :=
  match rget ps key with
  | Some _ => rreplace ps key x
  | None =>
      match array_index key with
      | Some i => rinsert ps i key x
      | None => ps ++ [(key, x)]
      end
  end.

(** A new object made from a value given by value: what a caller hands
    in, and what [_cloneDeep] makes. *)
Fixpoint store_value (v : value) (h : heap) : ref * heap :=
  match v with
  | VObj k ps =>
      let '(rs, h1) :=
        (fix each (l : props) (h : heap) : rprops * heap :=
           match l with
           | [] => ([], h)
           | (key, x) :: l' =>
               let '(r, h1) := store_value x h in
               let '(rs, h2) := each l' h1 in
               ((key, r) :: rs, h2)
           end) ps h in
      (Ref (List.length h1), h1 ++ [{| c_kind := k; c_props := rs |}])
  | _ => (Prim v, h)
  end.

Fixpoint store_props (ps : props) (h : heap) : rprops * heap :=
  match ps with
  | [] => ([], h)
  | (key, x) :: rest =>
      let '(r, h1) := store_value x h in
      let '(rs, h2) := store_props rest h1 in
      ((key, r) :: rs, h2)
  end.

(** The value a reference stands for, objects unfolded: what
    [_isEqual] and [_cloneDeep] walk.  The heaps of this module hold no
    cycle, so an object is no deeper than the heap is long. *)
Fixpoint load (fuel : nat) (h : heap) (x : ref) : value :=
  match x with
  | Prim v => v
  | Ref l =>
      match fuel with
      | O => VUndef
      | S n =>
          match nth_error h l with
          | Some c =>
              VObj (c_kind c) (map (fun kv => (fst kv, load n h (snd kv))) (c_props c))
          | None => VUndef
          end
      end
  end.

Definition unfold (h : heap) (x : ref) : value := load (S (List.length h)) h x.

Fixpoint update_nth {A : Type} (l : list A) (i : nat) (f : A -> A) : list A :=
  match l, i with
  | [], _ => []
  | x :: rest, O => f x :: rest
  | x :: rest, S j => x :: update_nth rest j f
  end.

(** [object[key] = x] on the object at [l]. *)
Definition write (h : heap) (l : nat) (key : string) (x : ref) : heap :=
  update_nth h l (fun c => {| c_kind := c_kind c; c_props := rset (c_props c) key x |}).

Definition read (h : heap) (l : nat) (key : string) : option ref :=
  match nth_error h l with
  | Some c => rget (c_props c) key
  | None => None
  end.

(** lodash [baseSet] on the object at [l], which it mutates: on its way
    it walks into the objects it finds and makes an array or a plain
    object where it finds none. *)
Fixpoint baseSet (h : heap) (l : nat) (path : list string) (x : ref) : heap :=
  match path with
  | [] => h
  | key :: rest =>
      if unsafe_key key then h
      else match rest with
           | [] => write h l key x
           | next :: _ =>
               match read h l key with
               | Some (Ref l') => baseSet h l' rest x
               | _ =>
                   let l' := List.length h in
                   let made := {| c_kind := if isIndex next then KArray else KPlain;
                                  c_props := [] |} in
                   baseSet (write (h ++ [made]) l key (Ref l')) l' rest x
               end
           end
  end.

Definition _set (h : heap) (l : nat) (path : string) (x : ref) : heap :=
  let literal := match read h l path with Some _ => true | None => false end in
  baseSet h l (if has_dot path && negb literal then split_dots path else [path]) x.

(** Ember's [_getProp]. *)
Definition _getProp (h : heap) (o : ref) (key : string) : ref :=
  match o with
  | Prim v => Prim (getProp v key)
  | Ref l =>
      match nth_error h l with
      | Some c =>
          match rget (c_props c) key, c_kind c with
          | Some x, _ => x
          | None, KArray =>
              if String.eqb key "length"
              then Prim (VNum (Z.of_N (array_length
                                         (map (fun kv => (fst kv, VUndef)) (c_props c)))))
              else Prim VUndef
          | None, _ => Prim VUndef
          end
      | None => Prim VUndef
      end
  end.

(** Ember's [get(bag, keyName)] on one of the two bags. *)
Definition get (h : heap) (bag : rprops) (keyName : string) : ref :=
  match split_dots keyName with
  | [] => Prim VUndef
  | first :: rest =>
      fold_left (_getProp h) rest
        (match rget bag first with Some x => x | None => Prim VUndef end)
  end.

(** The part of the store that holds or concerns values. *)
Record store : Type := {
  objects : heap;
  values : rprops;
  rollbackValues : rprops;
  dirtyFields : props;
  errors : props;
  isSubmitted : bool;
  parsers : parser_registry
}.

(** The field initialisers: two deep copies of [args.values]. *)
Definition create (vals : props) : store :=
  let '(vs, h1) := store_props (clone_props vals) [] in
  let '(rs, h2) := store_props (clone_props vals) h1 in
  {| objects := h2; values := vs; rollbackValues := rs; dirtyFields := [];
     errors := []; isSubmitted := false; parsers := [] |}.

Definition with_objects (st : store) (h : heap) : store :=
  {| objects := h; values := values st; rollbackValues := rollbackValues st;
     dirtyFields := dirtyFields st; errors := errors st;
     isSubmitted := isSubmitted st; parsers := parsers st |}.

Section Component.

Context (H : host).

(** [formatValue]: without a directive the value itself, the same
    object; with one, the new value the directive makes. *)
Definition formatValue (h : heap) (x : ref) (p : option parser) : ref * heap :=
  match p with
  | None => (x, h)
  | Some _ => store_value (applyDirective H p (unfold h x)) h
  end.

(** [parsedValues]: a new object, filled with lodash [set]; the heap it
    leaves and where the new object is. *)
Definition parsedValues (st : store) : heap * nat :=
  let root := List.length (objects st) in
  (fold_left
     (fun h kv =>
        let '(x, h1) := formatValue h (snd kv) (parser_for (parsers st) (fst kv)) in
        _set h1 root (fst kv) x)
     (values st)
     (objects st ++ [{| c_kind := KPlain; c_props := [] |}]),
   root).

Definition getValue (st : store) (field : string) : value * store :=
  let '(h, root) := parsedValues st in
  (unfold h (fold_left (_getProp h) (split_dots field) (Ref root)), with_objects st h).

Definition getDefaultValue (st : store) (field : string) : value :=
  unfold (objects st) (get (objects st) (rollbackValues st) field).

(** [dirtyField]: the snapshot is read, then the parsed view, and the two
    are compared as the heap then is. *)
Definition dirtyField (st : store) (field : string) : store :=
  let default := get (objects st) (rollbackValues st) field in
  let '(h, root) := parsedValues st in
  let current := fold_left (_getProp h) (split_dots field) (Ref root) in
  {| objects := h; values := values st; rollbackValues := rollbackValues st;
     dirtyFields :=
       own_set (dirtyFields st) field
         (VBool (negb (_isEqual (unfold h default) (unfold h current))));
     errors := errors st; isSubmitted := isSubmitted st; parsers := parsers st |}.

(** [setValue], the validation it may start left out; the value is a
    new object of the caller's. *)
Definition setValue (st : store) (field : string) (v : value) (shouldDirty : bool)
  : store :=
  let '(x, h) := store_value v (objects st) in
  let st1 :=
    {| objects := h; values := rset (values st) field x;
       rollbackValues := rollbackValues st; dirtyFields := dirtyFields st;
       errors := errors st; isSubmitted := isSubmitted st; parsers := parsers st |} in
  if shouldDirty then dirtyField st1 field else st1.

(** [rollback].  For a field, [values[field]] receives the default, a
    new object of the caller's, or what the snapshot holds under the
    field, the object itself; a truthy default is stored in the snapshot
    too, the same object.  For the form, the values are a new deep copy
    of the snapshot. *)
Definition rollback (st : store) (field : option string) (ctx : Gts.RollbackContext)
  : store :=
  match field_given field with
  | Some f =>
      let '(d, h) := store_value (Gts.defaultValue ctx) (objects st) in
      let restored :=
        if nullish (Gts.defaultValue ctx)
        then match rget (rollbackValues st) f with
             | Some (Prim v) => Prim (coalesce v VUndef)
             | Some (Ref l) => Ref l
             | None => Prim VUndef
             end
        else d in
      {| objects := h; values := rset (values st) f restored;
         rollbackValues :=
           if toBoolean (Gts.defaultValue ctx) then rset (rollbackValues st) f d
           else rollbackValues st;
         dirtyFields :=
           if Gts.keepDirty ctx then dirtyFields st else _unset (dirtyFields st) f;
         errors := if Gts.keepError ctx then errors st else _unset (errors st) f;
         isSubmitted := isSubmitted st; parsers := parsers st |}
  | None =>
      let '(vs, h) :=
        store_props
          (clone_props (map (fun kv => (fst kv, unfold (objects st) (snd kv)))
                          (rollbackValues st)))
          (objects st) in
      {| objects := h; values := vs; rollbackValues := rollbackValues st;
         dirtyFields := if Gts.keepDirty ctx then dirtyFields st else [];
         errors := if Gts.keepError ctx then errors st else [];
         isSubmitted := false; parsers := parsers st |}
  end.

End Component.

End ByRef.


(* ================================================================== *)
(** ** Facts about the helpers *)

Lemma own_get_replace_same (ps : props) (k : string) (v : value) :
  has_own ps k = true -> own_get (own_replace ps k v) k = Some v.
Proof.
  unfold has_own. induction ps as [|[k' x] rest IH]; simpl; [discriminate|].
  destruct (String.eqb k' k) eqn:E; simpl; rewrite E; auto.
Qed.

Lemma own_get_replace_other (ps : props) (k k' : string) (v : value) :
  k' <> k -> own_get (own_replace ps k v) k' = own_get ps k'.
Proof.
  intros Hne. induction ps as [|[k0 x] rest IH]; simpl; auto.
  destruct (String.eqb k0 k) eqn:E; simpl.
  - apply String.eqb_eq in E. subst k0.
    destruct (String.eqb k k') eqn:E'; auto.
    apply String.eqb_eq in E'. congruence.
  - destruct (String.eqb k0 k'); auto.
Qed.

Lemma own_get_insert_same (ps : props) (i : N) (k : string) (v : value) :
  has_own ps k = false -> own_get (insert_index ps i k v) k = Some v.
Proof.
  unfold has_own. induction ps as [|[k' x] rest IH]; simpl.
  - now rewrite String.eqb_refl.
  - destruct (String.eqb k' k) eqn:E; [discriminate|]. intros Hn.
    destruct (array_index k') as [j|]; [destruct (N.ltb j i)|]; simpl;
      rewrite ?E, ?String.eqb_refl; auto.
Qed.

Lemma own_get_insert_other (ps : props) (i : N) (k k' : string) (v : value) :
  k' <> k -> own_get (insert_index ps i k v) k' = own_get ps k'.
Proof.
  intros Hne. assert (E : String.eqb k k' = false).
  { apply String.eqb_neq. congruence. }
  induction ps as [|[k0 x] rest IH]; simpl.
  - now rewrite E.
  - destruct (array_index k0) as [j|]; [destruct (N.ltb j i)|]; simpl;
      rewrite ?E, ?IH; auto.
Qed.

Lemma own_get_app (ps qs : props) (k : string) :
  own_get (ps ++ qs) k
  = match own_get ps k with Some v => Some v | None => own_get qs k end.
Proof.
  induction ps as [|[k0 x] rest IH]; simpl; auto.
  destruct (String.eqb k0 k); auto.
Qed.

Lemma own_get_own_set_same (ps : props) (k : string) (v : value) :
  own_get (own_set ps k v) k = Some v.
Proof.
  unfold own_set. destruct (has_own ps k) eqn:Ho.
  - now apply own_get_replace_same.
  - destruct (array_index k).
    + now apply own_get_insert_same.
    + rewrite own_get_app. unfold has_own in Ho.
      destruct (own_get ps k); [discriminate|]. simpl. now rewrite String.eqb_refl.
Qed.

Lemma own_get_own_set_other (ps : props) (k k' : string) (v : value) :
  k' <> k -> own_get (own_set ps k v) k' = own_get ps k'.
Proof.
  intros Hne. unfold own_set. destruct (has_own ps k).
  - now apply own_get_replace_other.
  - destruct (array_index k).
    + now apply own_get_insert_other.
    + rewrite own_get_app. destruct (own_get ps k'); auto. simpl.
      destruct (String.eqb k k') eqn:E; auto.
      apply String.eqb_eq in E. congruence.
Qed.

Lemma prop_own_set_same (ps : props) (k : string) (v : value) :
  prop (own_set ps k v) k = v.
Proof. unfold prop. now rewrite own_get_own_set_same. Qed.

Lemma keys_own_set (ps : props) (k : string) (v : value) (x : string) :
  In x (keys (own_set ps k v)) -> x = k \/ In x (keys ps).
Proof.
  unfold own_set. destruct (has_own ps k).
  - induction ps as [|[k0 y] rest IH]; simpl; auto.
    destruct (String.eqb k0 k) eqn:E; simpl.
    + intros [E'|Hin]; auto.
    + intros [E'|Hin]; auto. destruct (IH Hin); auto.
  - destruct (array_index k) as [i|].
    + induction ps as [|[k0 y] rest IH]; simpl.
      * intros [E|[]]. now left.
      * destruct (array_index k0) as [j|]; [destruct (N.ltb j i)|]; simpl.
        -- intros [E'|Hin]; auto. destruct (IH Hin); auto.
        -- intros [E'|[E'|Hin]]; auto.
        -- intros [E'|[E'|Hin]]; auto.
    + unfold keys. rewrite map_app, in_app_iff. simpl.
      intros [Hin|[E|[]]]; auto.
Qed.

Lemma has_own_In (ps : props) (k : string) :
  has_own ps k = true -> In k (keys ps).
Proof.
  unfold has_own. induction ps as [|[k0 y] rest IH]; simpl.
  - discriminate.
  - destruct (String.eqb k0 k) eqn:E.
    + apply String.eqb_eq in E. auto.
    + auto.
Qed.

(** The segments of a dotted path hold no dot. *)
Lemma split_dots_segments (s : string) :
  Forall (fun seg => has_dot seg = false) (split_dots s).
Proof.
  induction s as [|c rest IH]; simpl.
  - constructor; auto.
  - destruct (Ascii.eqb c ".") eqn:E.
    + constructor; auto.
    + destruct (split_dots rest) as [|seg segs].
      * constructor; auto. simpl. now rewrite E.
      * inversion IH; subst. constructor; auto. simpl. now rewrite E.
Qed.

Lemma split_dots_nonempty (s : string) : split_dots s <> [].
Proof.
  destruct s as [|c rest]; simpl; try discriminate.
  destruct (Ascii.eqb c "."); try discriminate.
  destruct (split_dots rest); discriminate.
Qed.

Lemma head_segment_no_dot (path : string) : has_dot (head_segment path) = false.
Proof.
  unfold head_segment. pose proof (split_dots_segments path) as F.
  destruct (split_dots path); simpl; auto. now inversion F.
Qed.

Lemma split_dots_plain (s : string) : has_dot s = false -> split_dots s = [s].
Proof.
  induction s as [|c rest IH]; simpl; auto.
  destruct (Ascii.eqb c "."); simpl; try discriminate.
  intros Hd. now rewrite (IH Hd).
Qed.

Lemma head_segment_plain (s : string) : has_dot s = false -> head_segment s = s.
Proof. intros Hd. unfold head_segment. now rewrite split_dots_plain. Qed.

(** [castPath] always starts with the literal key or with the first
    segment. *)
Lemma castPath_cases (ps : props) (path : string) :
  castPath ps path = [path] \/
  (has_dot path = true /\ has_own ps path = false /\ castPath ps path = split_dots path).
Proof.
  unfold castPath. destruct (has_dot path); simpl; auto.
  destruct (has_own ps path); simpl; auto.
Qed.

(** [baseSet] touches one top-level key: the first of the path. *)
Lemma baseSet_top (ps : props) (key : string) (rest : list string) (v : value) :
  baseSet ps (key :: rest) v = ps \/
  exists x, baseSet ps (key :: rest) v = own_set ps key x.
Proof.
  simpl. destruct (unsafe_key key); auto.
  destruct rest as [|next more].
  - right. now exists v.
  - destruct (own_get ps key) as [[| | | | | |k inner]|]; right; eexists; reflexivity.
Qed.

Lemma baseSet_other (ps : props) (path : list string) (v : value) (k : string) :
  k <> hd "" path -> own_get (baseSet ps path v) k = own_get ps k.
Proof.
  destruct path as [|key rest]; auto. simpl hd. intros Hne.
  destruct (baseSet_top ps key rest v) as [E|[x E]]; rewrite E; auto.
  now apply own_get_own_set_other.
Qed.

(** The frame of [_set]: a key that is neither the path itself nor its
    first segment keeps its entry. *)
Lemma set_other (ps : props) (path : string) (v : value) (k : string) :
  k <> path -> k <> head_segment path -> own_get (_set ps path v) k = own_get ps k.
Proof.
  intros Hp Hh. unfold _set.
  destruct (castPath_cases ps path) as [E|(_ & _ & E)]; rewrite E.
  - now apply baseSet_other.
  - apply baseSet_other. exact Hh.
Qed.

(** The keys [_set] can add hold no dot, unless the path was already a
    literal key. *)
Lemma set_keys (ps : props) (path : string) (v : value) (x : string) :
  In x (keys (_set ps path v)) -> In x (keys ps) \/ has_dot x = false.
Proof.
  unfold _set. intros Hin.
  destruct (castPath_cases ps path) as [E|(Hd & Ho & E)]; rewrite E in Hin.
  - destruct (baseSet_top ps path [] v) as [E'|[y E']]; rewrite E' in Hin; auto.
    apply keys_own_set in Hin. destruct Hin as [->|Hin]; auto.
    unfold castPath in E. destruct (has_dot path) eqn:Hd; auto.
    destruct (has_own ps path) eqn:Ho; simpl in E.
    + left. now apply has_own_In.
    + exfalso. pose proof (split_dots_segments path) as F. rewrite E in F.
      inversion F; subst. congruence.
  - pose proof (split_dots_nonempty path) as Hne.
    pose proof (head_segment_no_dot path) as Hh. unfold head_segment in Hh.
    destruct (split_dots path) as [|key rest]; try congruence. simpl in Hh.
    destruct (baseSet_top ps key rest v) as [E'|[y E']]; rewrite E' in Hin; auto.
    apply keys_own_set in Hin. destruct Hin as [->|Hin]; auto.
Qed.

(** *** The helpers on small inputs *)

Example set_nested :
  _set [] "a.b" (VBool true) = [("a", obj [("b", VBool true)])].
Proof. reflexivity. Qed.

Example set_array_element :
  _set [("foo", arr [("0", VStr "A"); ("1", VStr "B")])] "foo.1" (VStr "*")
  = [("foo", arr [("0", VStr "A"); ("1", VStr "*")])].
Proof. reflexivity. Qed.

Example set_creates_array : _set [] "foo.0" VNull = [("foo", arr [("0", VNull)])].
Proof. reflexivity. Qed.

Example set_literal_key :
  _set [("a.b", VNull)] "a.b" (VStr "x") = [("a.b", VStr "x")].
Proof. reflexivity. Qed.

Example get_walks_the_path :
  get [("a", obj [("b", VStr "x")]); ("a.b", VStr "flat")] "a.b" = VStr "x".
Proof. reflexivity. Qed.

Example isEqual_ignores_key_order :
  _isEqual (obj [("x", VNum 1); ("y", VNull)]) (obj [("y", VNull); ("x", VNum 1)]) = true.
Proof. reflexivity. Qed.

Example index_keys_come_first :
  keys (own_set (own_set [("b", VNull)] "1" VNull) "0" VNull) = ["0"; "1"; "b"].
Proof. reflexivity. Qed.

(** After the classic [clearError] the key stays in the error map with
    [undefined]: the field is valid again, the form is not. *)
Example clearError_leaves_the_key :
  let st := Classic.clearError
              (Classic.setError (Classic.create (Classic.Plain [])) "foo" (Message "bad"))
              "foo" in
  Classic.errors st = [("foo", VUndef)]
  /\ FieldState.isInvalid (Classic.getFieldState st "foo") = false
  /\ Classic.isValid st = false.
Proof. repeat split. Qed.

(** The scenarios of the rollback tests, on the later revision. *)
Example scenario_text_rollback :
  let st := fst (Gts.setValue small_host quiet (Gts.create [("foo", VStr "DEFAULT")])
                   "foo" (VStr "CHANGED") dirty_write) in
  Gts.getValue small_host st "foo" = VStr "CHANGED"
  /\ Gts.getValue small_host (Gts.rollback st None Gts.no_context) "foo" = VStr "DEFAULT"
  /\ Gts.isSubmitted (Gts.rollback st None Gts.no_context) = false.
Proof. repeat split. Qed.

Example scenario_explicit_default :
  let st := fst (Gts.setValue small_host quiet (Gts.create [("foo", VStr "DEFAULT")])
                   "foo" (VStr "UPDATED") dirty_write) in
  let st' := Gts.rollback st (Some "foo")
               {| Gts.keepError := false; Gts.keepDirty := false;
                  Gts.defaultValue := VStr "Shiny and new!" |} in
  Gts.getDefaultValue st' "foo" = VStr "Shiny and new!"
  /\ Gts.getValue small_host st' "foo" = VStr "Shiny and new!".
Proof. repeat split. Qed.

Example scenario_number :
  let st0 := Gts.register (Gts.create [("foo", VNum 404)]) "foo" as_number VUndef in
  let st := fst (Gts.setValue small_host quiet st0 "foo" (VStr "5") dirty_write) in
  Gts.getValue small_host st0 "foo" = VNum 404
  /\ Gts.getValue small_host st "foo" = VNum 5
  /\ Gts.getValue small_host (Gts.rollback st None Gts.no_context) "foo" = VNum 404.
Proof. repeat split. Qed.

Example scenario_array_paths :
  let st0 := Gts.create [("foo", arr [("0", VStr "A"); ("1", VStr "B")])] in
  let st1 := fst (Gts.setValue small_host quiet st0 "foo.0" (VStr "*") dirty_write) in
  let st2 := fst (Gts.setValue small_host quiet st1 "foo.1" (VStr "**") dirty_write) in
  Gts.getValue small_host st2 "foo.0" = VStr "*"
  /\ Gts.getValue small_host st2 "foo.1" = VStr "**"
  /\ Gts.getValue small_host (Gts.rollback st2 None Gts.no_context) "foo.0" = VStr "A"
  /\ Gts.getValue small_host (Gts.rollback st2 None Gts.no_context) "foo.1" = VStr "B".
Proof. repeat split. Qed.

Example scenario_nested_object :
  let st := fst (Gts.setValue small_host quiet
                   (Gts.create [("foo", obj [("bar", VStr "DEFAULT")])])
                   "foo.bar" (VStr "CHANGED") dirty_write) in
  Gts.getValue small_host st "foo.bar" = VStr "CHANGED"
  /\ FieldState.isDirty (Gts.getFieldState st "foo.bar") = VBool true
  /\ Gts.getValue small_host (Gts.rollback st None Gts.no_context) "foo.bar"
     = VStr "DEFAULT".
Proof. repeat split. Qed.

Lemma fold_set_keys {A : Type} (key_of : A -> string) (val_of : A -> value)
  (l : list A) (acc : props) :
  (forall k, In k (keys acc) -> has_dot k = false) ->
  forall k,
    In k (keys (fold_left (fun o x => _set o (key_of x) (val_of x)) l acc)) ->
    has_dot k = false.
Proof.
  revert acc. induction l as [|x rest IH]; simpl; intros acc Hacc k Hin; auto.
  apply (IH (_set acc (key_of x) (val_of x))); auto.
  intros k' Hk'. apply set_keys in Hk'. destruct Hk'; auto.
Qed.

Lemma invalid_of_no_dotted_key (errs : props) (k : string) :
  In k (keys (invalid_of errs)) -> has_dot k = false.
Proof.
  unfold invalid_of.
  apply (fold_set_keys (fun key => key) (fun _ => VBool true)).
  intros k' [].
Qed.

Lemma isEmpty_false_iff (v : value) : _isEmpty v = false <-> nonempty_entry v.
Proof.
  split.
  - destruct v as [| | | | |s|k ps]; simpl; try discriminate.
    + intros E. constructor. intros ->. discriminate.
    + destruct k.
      * destruct ps; try discriminate. intros _. constructor; congruence.
      * intros E. constructor. apply N.eqb_neq in E. lia.
      * destruct ps; try discriminate. intros _. constructor; congruence.
  - intros Hn. destruct Hn as [s Hs|ps Hl|k ps Hk Hp]; simpl.
    + apply String.eqb_neq. exact Hs.
    + apply N.eqb_neq. lia.
    + destruct k; try congruence; destruct ps; congruence.
Qed.

(** Reading along a path what [baseSet] has just written along it. *)
Lemma getProp_path_baseSet (path : list string) :
  path <> [] ->
  Forall (fun seg => unsafe_key seg = false) path ->
  forall (k : kind) (ps : props) (v : value),
    fold_left getProp path (VObj k (baseSet ps path v)) = v.
Proof.
  induction path as [|key rest IH]; [congruence|].
  intros _ Hsafe k ps v. inversion Hsafe as [|? ? Hkey Hrest]; subst.
  simpl baseSet. rewrite Hkey.
  destruct rest as [|next more].
  - simpl. now rewrite own_get_own_set_same.
  - assert (Hne : next :: more <> []) by discriminate.
    assert (Hstep : forall x, fold_left getProp (key :: next :: more) (VObj k (own_set ps key x))
                         = fold_left getProp (next :: more) x).
    { intros x. change (fold_left getProp (key :: next :: more) (VObj k (own_set ps key x)))
        with (fold_left getProp (next :: more) (getProp (VObj k (own_set ps key x)) key)).
      unfold getProp at 2. now rewrite own_get_own_set_same. }
    destruct (own_get ps key) as [[| | | | | |k' inner]|] eqn:E;
      rewrite Hstep; apply IH; assumption.
Qed.

(** [get] on a plain object looks at one top-level entry only: the one
    under the first segment of the key. *)
Lemma get_depends_on_head (ps qs : props) (f : string) :
  own_get ps (head_segment f) = own_get qs (head_segment f) ->
  get ps f = get qs f.
Proof.
  unfold get, get_value, head_segment.
  destruct (has_dot f) eqn:Hd.
  - pose proof (split_dots_nonempty f) as Hne.
    destruct (split_dots f) as [|h rest]; [congruence|]. simpl.
    intros ->. reflexivity.
  - rewrite (split_dots_plain f Hd). simpl. intros ->. reflexivity.
Qed.

Lemma get_set_same (ps : props) (f : string) (v : value) :
  (forall k, In k (keys ps) -> has_dot k = false) ->
  Forall (fun seg => unsafe_key seg = false) (split_dots f) ->
  get (_set ps f v) f = v.
Proof.
  intros Hkeys Hsafe. unfold get, get_value, _set, castPath.
  destruct (has_dot f) eqn:Hd; simpl.
  - assert (Ho : has_own ps f = false).
    { destruct (has_own ps f) eqn:Ho; auto.
      apply has_own_In, Hkeys in Ho. congruence. }
    rewrite Ho. simpl.
    apply getProp_path_baseSet; auto. apply split_dots_nonempty.
  - rewrite (split_dots_plain f Hd) in Hsafe. inversion Hsafe; subst.
    simpl. replace (unsafe_key f) with false by (symmetry; assumption).
    now rewrite own_get_own_set_same.
Qed.

Lemma set_keeps_other_head (ps : props) (k f : string) (v : value) :
  head_segment k <> head_segment f ->
  own_get (_set ps k v) (head_segment f) = own_get ps (head_segment f).
Proof.
  intros Hne. apply set_other; [|congruence].
  intros E. apply Hne. rewrite <- E.
  rewrite head_segment_plain; auto. apply head_segment_no_dot.
Qed.

(** A fold of [_set] from the empty object, read back: the value written
    for an element is found under its key when no later element writes
    under the same first segment. *)
Lemma fold_set_get {A : Type} (key_of : A -> string) (val_of : A -> value)
  (before after : list A) (x : A) :
  (forall y, In y after -> head_segment (key_of y) <> head_segment (key_of x)) ->
  Forall (fun seg => unsafe_key seg = false) (split_dots (key_of x)) ->
  get (fold_left (fun o y => _set o (key_of y) (val_of y)) (before ++ x :: after) [])
    (key_of x)
  = val_of x.
Proof.
  intros Hafter Hsafe. rewrite fold_left_app. simpl.
  set (step := fun (o : props) (y : A) => _set o (key_of y) (val_of y)).
  set (acc0 := fold_left step before []).
  assert (Hacc0 : forall k, In k (keys acc0) -> has_dot k = false).
  { subst acc0 step. apply (fold_set_keys key_of val_of). intros k []. }
  assert (Hfold : forall l acc,
             (forall y, In y l -> head_segment (key_of y) <> head_segment (key_of x)) ->
             get (fold_left step l acc) (key_of x) = get acc (key_of x)).
  { induction l as [|y rest IH]; intros acc Hl; simpl; auto.
    rewrite IH.
    - apply get_depends_on_head. unfold step.
      apply set_keeps_other_head. apply Hl. simpl; auto.
    - intros y' Hy'. apply Hl. simpl; auto. }
  rewrite Hfold; auto.
  apply get_set_same; auto.
Qed.

(** The round trip through the parsed view: the entry of [f] is read
    back as its directive left it when no later entry writes under the
    first segment of [f]. *)
Lemma parse_entries_get (H : host) (reg : parser_registry)
  (before after : props) (f : string) (v : value) :
  (forall k, In k (keys after) -> head_segment k <> head_segment f) ->
  Forall (fun seg => unsafe_key seg = false) (split_dots f) ->
  get (parse_entries H reg (before ++ (f, v) :: after)) f
  = applyDirective H (parser_for reg f) v.
Proof.
  intros Hafter Hsafe. unfold parse_entries.
  apply (fold_set_get fst
           (fun kv => applyDirective H (parser_for reg (fst kv)) (snd kv))
           before after (f, v)); auto.
  intros y Hy. apply Hafter. unfold keys. now apply in_map.
Qed.

(** *** Writes along paths that do not overlap *)

Lemma comparable_sym (p q : list string) : comparable p q = comparable q p.
Proof. unfold comparable. apply Bool.orb_comm. Qed.

Lemma comparable_cons (k : string) (p q : list string) :
  comparable (k :: p) (k :: q) = comparable p q.
Proof. unfold comparable. simpl. now rewrite String.eqb_refl. Qed.

Lemma holds_step (ps : props) (key next : string) (more : list string) (x : value) :
  holds ps (key :: next :: more) x
  <-> exists (k : kind) (inner : props),
        own_get ps key = Some (VObj k inner) /\ holds inner (next :: more) x.
Proof. reflexivity. Qed.



(** [baseSet] along a path leaves what is held at the end of a path that
    neither starts nor continues it. *)
Lemma baseSet_keeps (p : list string) :
  forall (q : list string) (ps : props) (v x : value),
    comparable p q = false -> holds ps q x -> holds (baseSet ps p v) q x.
Proof.
  induction p as [|key rest IH]; intros q ps v x Hc Hh.
  - unfold comparable in Hc. simpl in Hc. discriminate.
  - destruct q as [|key' q']; [destruct Hh|].
    simpl baseSet. destruct (unsafe_key key); [exact Hh|].
    destruct (String.eqb key key') eqn:Ek.
    + apply String.eqb_eq in Ek. subst key'. rewrite comparable_cons in Hc.
      destruct rest as [|next more].
      { unfold comparable in Hc. simpl in Hc. discriminate. }
      destruct q' as [|next' more'].
      { unfold comparable in Hc. simpl in Hc. discriminate. }
      apply holds_step in Hh. destruct Hh as (k' & inner & Hg & Hin). rewrite Hg.
      apply holds_step. exists k', (baseSet inner (next :: more) v).
      split; [apply own_get_own_set_same|]. now apply IH.
    + assert (Hne : key' <> key).
      { intros ->. rewrite String.eqb_refl in Ek. discriminate. }
      assert (Hother : forall y, own_get (own_set ps key y) key' = own_get ps key')
        by (intros y; now apply own_get_own_set_other).
      assert (Hgoal : forall y, holds (own_set ps key y) (key' :: q') x).
      { intros y. destruct q' as [|next' more'].
        - simpl in *. now rewrite Hother.
        - apply holds_step in Hh. destruct Hh as (k' & inner & Hg & Hin).
          apply holds_step. exists k', inner. rewrite Hother. auto. }
      destruct rest as [|next more]; [apply Hgoal|].
      destruct (own_get ps key) as [[| | | | | |k' inner]|]; apply Hgoal.
Qed.





(** *** Where [o[f] = v] leaves the other entries *)




Lemma overlaps_sym (k f : string) : overlaps k f = overlaps f k.
Proof. apply comparable_sym. Qed.

(** What a settled validation does to the error map, in both revisions. *)
Lemma apply_validation_frame (errs : props) (field : option string) (validation : props) :
  match field_given field with
  | None => apply_validation errs field validation = validation
  | Some f =>
      apply_validation errs field validation = _set errs f (get validation f)
      /\ (forall k, k <> f -> k <> head_segment f ->
            own_get (apply_validation errs field validation) k = own_get errs k)
      /\ (has_dot f = false \/ has_own errs f = true ->
          unsafe_key f = false ->
          own_get (apply_validation errs field validation) f = Some (get validation f)
          /\ forall k, k <> f ->
               own_get (apply_validation errs field validation) k = own_get errs k)
  end.
Proof.
  unfold apply_validation. destruct (field_given field) as [f|]; [|reflexivity].
  split; [reflexivity|]. split.
  - intros k Hk Hh. now apply set_other.
  - intros Hlit Hsafe.
    assert (E : castPath errs f = [f]).
    { unfold castPath. destruct Hlit as [-> | ->]; auto.
      now rewrite Bool.andb_false_r. }
    unfold _set. rewrite E. simpl. rewrite Hsafe. split.
    + apply own_get_own_set_same.
    + intros k Hk. now apply own_get_own_set_other.
Qed.

Section ClassicFacts.

Context {R : Type} {ops : RecordOps R} (H : host).

(** C8.  In every store state, [getFieldState(f).isInvalid] is true
    exactly when the error map holds a non-empty entry under [f], and
    [isValid] is true exactly when the error map has no entry at all.
    Both are derived reads, so every store operation, [clearError] and
    [clearErrors] included, leaves a state in which they hold. *)
Theorem invalid_iff_nonempty_entry (st : Classic.store R) (f : string) :
  (FieldState.isInvalid (Classic.getFieldState st f) = true <->
   exists e, own_get (Classic.errors st) f = Some e /\ nonempty_entry e)
  /\ (Classic.isValid st = true <-> Classic.errors st = [])
  /\ (Classic.isInvalid st = negb (Classic.isValid st))
  /\ Classic.isValid (Classic.clearErrors st) = true.
Proof.
  repeat split.
  - unfold Classic.getFieldState, fieldState, prop; simpl.
    rewrite Bool.negb_true_iff, isEmpty_false_iff.
    destruct (own_get (Classic.errors st) f) as [e|].
    + intros Hn. now exists e.
    + intros Hn. inversion Hn.
  - intros (e & He & Hn).
    unfold Classic.getFieldState, fieldState, prop; simpl.
    rewrite He. rewrite Bool.negb_true_iff. now apply isEmpty_false_iff.
  - unfold Classic.isValid; simpl. destruct (Classic.errors st); auto; discriminate.
  - unfold Classic.isValid; simpl. intros ->. reflexivity.
Qed.

(** C9.  Without a validator a run of [validate] returns and leaves the
    error map, indeed the whole store, as it was, whatever the field
    argument; performing the task leaves no instance running. *)
Theorem validate_without_validator
  (a : Classic.args R) (st : Classic.store R) (field : option string) :
  Classic.validator a = None ->
  Classic.validate H a st field = (st, Returned)
  /\ Classic.errors (fst (Classic.validate H a st field)) = Classic.errors st
  /\ Classic.validate_begin H a st field = None.
Proof.
  intros Hv. unfold Classic.validate, Classic.validate_begin. rewrite Hv. auto.
Qed.

(** C10.  [invalidFields] is the fold of [_set(invalid, key, true)] over
    the keys of the error map, each key taken as a dotted path: none of
    its own keys holds a dot; an error map with the single key ["a.b"]
    gives [{a: {b: true}}]; and in general an error key is found as
    [true] at the end of its path, when no later error key writes under
    the same first segment. *)
Theorem invalidFields_expands_dotted_keys (st : Classic.store R) :
  Classic.invalidFields st
  = fold_left (fun invalid key => _set invalid key (VBool true))
      (keys (Classic.errors st)) []
  /\ forallb (fun k => negb (has_dot k)) (keys (Classic.invalidFields st)) = true
  /\ (forall e : value,
        Classic.invalidFields (Classic.set_errors st [("a.b", e)])
        = [("a", obj [("b", VBool true)])])
  /\ (forall (before after : list string) (key : string),
        keys (Classic.errors st) = before ++ key :: after ->
        (forall k, In k after -> head_segment k <> head_segment key) ->
        Forall (fun seg => unsafe_key seg = false) (split_dots key) ->
        get (Classic.invalidFields st) key = VBool true).
Proof.
  split; [reflexivity|]. split; [|split].
  - apply forallb_forall. intros k Hin.
    apply invalid_of_no_dotted_key in Hin. now rewrite Hin.
  - reflexivity.
  - intros before after key Hkeys Hafter Hsafe.
    unfold Classic.invalidFields, invalid_of. rewrite Hkeys.
    apply (fold_set_get (fun k => k) (fun _ => VBool true) before after key); auto.
Qed.

(** What a settled validation writes.  For a field [f] the validator's
    value at path [f] is written into the error map with lodash [set]:
    when [f] has no dot, or is already a literal key of the error map,
    the entry under [f] is the one written and every other entry is
    unchanged; in any case an entry whose key is neither [f] nor the
    first segment of [f] is unchanged, and so is what the error map held
    at the end of a path that does not overlap the one written.  Without
    a field the error map is replaced by the validator's result.  Nothing
    but the error map changes. *)
Lemma validate_writes_by_path
  (a : Classic.args R) (st : Classic.store R) (field : option string)
  (v : Classic.source R -> props -> settled) (validation : props) :
  Classic.validator a = Some v ->
  v (Classic.parsedValues H st) (Classic.validations st) = Resolved validation ->
  let st' := fst (Classic.validate H a st field) in
  st' = Classic.set_errors st (Classic.errors st')
  /\ match field_given field with
     | None => Classic.errors st' = validation
     | Some f =>
         Classic.errors st' = _set (Classic.errors st) f (get validation f)
         /\ (forall k, k <> f -> k <> head_segment f ->
               own_get (Classic.errors st') k = own_get (Classic.errors st) k)
         /\ (has_dot f = false \/ has_own (Classic.errors st) f = true ->
             unsafe_key f = false ->
             own_get (Classic.errors st') f = Some (get validation f)
             /\ forall k, k <> f ->
                  own_get (Classic.errors st') k = own_get (Classic.errors st) k)
         /\ (forall (q : list string) (x : value),
               comparable (castPath (Classic.errors st) f) q = false ->
               holds (Classic.errors st) q x -> holds (Classic.errors st') q x)
     end.
Proof.
  intros Hv Hr st'. subst st'.
  unfold Classic.validate, Classic.validate_begin, Classic.validate_settle.
  rewrite Hv. simpl. rewrite Hr. simpl. split; [reflexivity|].
  pose proof (apply_validation_frame (Classic.errors st) field validation) as F.
  destruct (field_given field) as [f|] eqn:Ef; [|exact F].
  destruct F as (E & Hother & Hlit). repeat split; auto.
  - apply Hlit; auto.
  - apply Hlit; auto.
  - intros q x Hc Hh. rewrite E. unfold _set. now apply baseSet_keeps.
Qed.


(** An attribute the snapshot does not hold is not touched by writing the
    snapshot back. *)
Lemma write_back_other (attrs : list string) (snapshot : props) (r : R) (k : string) :
  attribute_writes attrs -> incl (keys snapshot) attrs ->
  In k attrs -> ~ In k (keys snapshot) ->
  record_get (write_back snapshot r) k = record_get r k.
Proof.
  intros [_ Hother] Hincl Hk. unfold write_back.
  revert r. induction snapshot as [|[k0 v0] rest IH]; intros r Hnot; simpl; auto.
  rewrite IH.
  - apply Hother; auto.
    + apply Hincl. simpl; auto.
    + intros ->. apply Hnot. simpl; auto.
  - intros x Hx. apply Hincl. simpl; auto.
  - intros Hin. apply Hnot. simpl; auto.
Qed.

(** An attribute of the snapshot reads, once the snapshot is written
    back, as its last entry there. *)
Lemma write_back_last (attrs : list string) (before after : props) (k : string)
  (v : value) (r : R) :
  attribute_writes attrs -> incl (keys (before ++ (k, v) :: after)) attrs ->
  ~ In k (keys after) ->
  record_get (write_back (before ++ (k, v) :: after) r) k = v.
Proof.
  intros Hw Hincl Hnot.
  assert (Hk : In k attrs).
  { apply Hincl. unfold keys. rewrite map_app, in_app_iff. simpl; auto. }
  unfold write_back. rewrite fold_left_app. simpl.
  change (record_get
            (write_back after
               (record_set (fold_left (fun rec kv => record_set rec (fst kv) (snd kv))
                              before r) k v)) k = v).
  rewrite (write_back_other attrs); auto.
  - now apply (proj1 Hw).
  - intros x Hx. apply Hincl. unfold keys. rewrite map_app, in_app_iff. simpl; auto.
Qed.

Lemma last_entry (l : props) (k : string) :
  In k (keys l) ->
  exists before v after, l = before ++ (k, v) :: after /\ ~ In k (keys after).
Proof.
  induction l as [|[k0 v0] rest IH]; simpl; [intros []|].
  intros Hin. destruct (in_dec string_dec k (keys rest)) as [Hr|Hr].
  - destruct (IH Hr) as (b & v & a' & E & Hn).
    exists ((k0, v0) :: b), v, a'. split; auto. now rewrite E.
  - destruct Hin as [->|Hin]; [|contradiction].
    exists [], v0, rest. auto.
Qed.

(** C5, as the code has it.  Rolling the whole form back twice leaves
    the same values, the same error map (empty unless kept), the same
    dirty set (empty unless kept) and [isSubmitted = false] as rolling it
    back once.  On a plain values object the second call changes nothing
    at all, and each call makes the values a deep copy of the rollback
    snapshot.  On an ember-data record the values are not replaced: each
    call writes the entries of the snapshot back into the record with
    [set]; for a record on which [set] is read back by [get] and leaves
    the other attributes alone, every attribute reads after the second
    call as after the first, an attribute of the snapshot as the
    snapshot holds it and any other as it was. *)
Theorem rollback_idempotent
  (st : Classic.store R) (ctx : Classic.RollbackContext) (attrs : list string) :
  let st1 := Classic.rollback st None ctx in
  let st2 := Classic.rollback st1 None ctx in
  Classic.errors st2 = Classic.errors st1
  /\ Classic.dirtyFields st2 = Classic.dirtyFields st1
  /\ Classic.isSubmitted st1 = false /\ Classic.isSubmitted st2 = false
  /\ Classic.errors st1 = (if Classic.keepError ctx then Classic.errors st else [])
  /\ Classic.dirtyFields st1
     = (if Classic.keepDirty ctx then Classic.dirtyFields st else [])
  /\ Classic.rollbackValues st1 = Classic.rollbackValues st
  /\ match Classic.values st with
     | Classic.Plain _ =>
         st2 = st1
         /\ Classic.values st1 = Classic.Plain (clone_props (Classic.rollbackValues st))
     | Classic.Model r =>
         let r1 := write_back (Classic.rollbackValues st) r in
         let r2 := write_back (Classic.rollbackValues st) r1 in
         Classic.values st1 = Classic.Model r1
         /\ Classic.values st2 = Classic.Model r2
         /\ (attribute_writes attrs ->
             incl (keys (Classic.rollbackValues st)) attrs ->
             (forall k, In k attrs -> record_get r2 k = record_get r1 k)
             /\ (forall before k v after,
                   Classic.rollbackValues st = before ++ (k, v) :: after ->
                   ~ In k (keys after) -> record_get r1 k = v)
             /\ (forall k, In k attrs -> ~ In k (keys (Classic.rollbackValues st)) ->
                   record_get r1 k = record_get r k))
     end.
Proof.
  destruct st as [vals ok sub n vs errs dirty reg snap].
  destruct ctx as [ke kd d].
  destruct vals as [ps|r].
  - destruct ke, kd; cbn; repeat split; reflexivity.
  - assert (Hrec : attribute_writes attrs -> incl (keys snap) attrs ->
                   (forall k, In k attrs ->
                      record_get (write_back snap (write_back snap r)) k
                      = record_get (write_back snap r) k)
                   /\ (forall before k v after,
                         snap = before ++ (k, v) :: after ->
                         ~ In k (keys after) -> record_get (write_back snap r) k = v)
                   /\ (forall k, In k attrs -> ~ In k (keys snap) ->
                         record_get (write_back snap r) k = record_get r k)).
    { intros Hw Hincl. split; [|split].
      - intros k Hk. destruct (in_dec string_dec k (keys snap)) as [Hin|Hnot].
        + destruct (last_entry snap k Hin) as (b & v & a' & E & Hn).
          rewrite E in Hincl |- *.
          now rewrite !(write_back_last attrs b a' k v) by assumption.
        + now apply (write_back_other attrs).
      - intros before k v after E Hn. subst snap.
        now apply (write_back_last attrs).
      - intros k Hk Hn. now apply (write_back_other attrs). }
    destruct ke, kd; cbn; repeat split; try reflexivity; apply Hrec; assumption.
Qed.

(** Performing the restartable task again drops the instance that was
    running: its result can no longer be applied. *)
Lemma perform_supersedes
  (a : Classic.args R) (w : Classic.world) (f1 f2 : option string) :
  Classic.step H a (Classic.step H a w (Classic.Perform f1)) (Classic.Perform f2)
  = Classic.step H a w (Classic.Perform f2).
Proof. reflexivity. Qed.

(** The classic [rollback] never writes the rollback snapshot. *)
Lemma rollback_keeps_snapshot
  (st : Classic.store R) (name : option string) (ctx : Classic.RollbackContext) :
  Classic.rollbackValues (Classic.rollback st name ctx) = Classic.rollbackValues st.
Proof.
  unfold Classic.rollback. destruct (field_given name);
    destruct (Classic.keepError ctx), (Classic.keepDirty ctx); reflexivity.
Qed.

(** The classic [setValue] marks the field dirty without comparing. *)
Lemma setValue_marks_dirty
  (a : Classic.args R) (st : Classic.store R) (key : string) (v : value)
  (ctx : Classic.SetValueContext) :
  Classic.shouldDirty ctx = true ->
  FieldState.isDirty (Classic.getFieldState (fst (Classic.setValue H a st key v ctx)) key)
  = VBool true.
Proof.
  intros Hd. unfold Classic.setValue. rewrite Hd.
  unfold Classic.getFieldState, fieldState. simpl.
  now rewrite prop_own_set_same.
Qed.

(** On a record the classic [setValue] picks the directive in another
    order than [parsedValues]: numeric coercion comes before the custom
    formatter. *)
Lemma setValue_record_number_first
  (a : Classic.args R) (st : Classic.store R) (r : R) (key : string) (v : value)
  (p : parser) (ctx : Classic.SetValueContext) :
  Classic.values st = Classic.Model r ->
  parser_for (Classic.parsers st) key = Some p ->
  valueAsNumber p = true ->
  Classic.values (fst (Classic.setValue H a st key v ctx))
  = Classic.Model (record_set r key (unary_plus H (coalesce v (VStr "")))).
Proof.
  intros Hm Hp Hn. unfold Classic.setValue. rewrite Hm, Hp, Hn.
  destruct (Classic.shouldDirty ctx); reflexivity.
Qed.

(** The classic [submit] counts the attempt before anything else, so
    every branch leaves the count one higher. *)
Lemma classic_submit_on_invalid
  (a : Classic.args R) (st : Classic.store R)
  (v : Classic.source R -> props -> settled) (errs : props) :
  includes (Classic.updateEvents a) onSubmit = true ->
  Classic.validator a = Some v ->
  v (Classic.parsedValues H st) (Classic.validations st) = Resolved errs ->
  errs <> [] ->
  let '(st', calls, out) := Classic.submit H a st in
  Classic.isSubmitSuccessful st' = Some false
  /\ calls = [Classic.PreventDefault]
  /\ Classic.submitCount st' = S (Classic.submitCount st)
  /\ out = Returned.
Proof.
  intros Ht Hv Hr Hne. unfold Classic.submit. rewrite Ht.
  unfold Classic.validate, Classic.validate_begin, Classic.validate_settle.
  rewrite Hv. simpl.
  change (Classic.parsedValues H
            (Classic.set_submitCount (Classic.set_isSubmitted st true)
               (S (Classic.submitCount st))))
    with (Classic.parsedValues H st).
  rewrite Hr. simpl. unfold Classic.isValid. simpl.
  destruct errs; [congruence|]. simpl. auto.
Qed.

End ClassicFacts.

(** Replays, in [Hval], a validation whose validator and result are
    known. *)
Ltac settle_in Hval Hv Hr H st1 st :=
  unfold Gts.validate, Gts.validate_begin, Gts.validate_settle in Hval;
  rewrite Hv in Hval; simpl in Hval;
  change (Gts.parsedValues H (Gts.set_isValidating st1 true))
    with (Gts.parsedValues H st) in Hval;
  change (Gts.nativeValidations (Gts.set_isValidating st1 true))
    with (Gts.nativeValidations st) in Hval;
  rewrite Hr in Hval; simpl in Hval.

Section GtsFacts.

Context (H : host) (a : Gts.args).

Lemma validate_keeps_bags (st : Gts.store) (field : option string) :
  let st' := fst (Gts.validate H a st field) in
  Gts.values st' = Gts.values st
  /\ Gts.parsers st' = Gts.parsers st
  /\ Gts.rollbackValues st' = Gts.rollbackValues st
  /\ Gts.dirtyFields st' = Gts.dirtyFields st
  /\ Gts.submitCount st' = Gts.submitCount st
  /\ Gts.isSubmitting st' = Gts.isSubmitting st
  /\ Gts.isSubmitted st' = Gts.isSubmitted st
  /\ Gts.isSubmitSuccessful st' = Gts.isSubmitSuccessful st.
Proof.
  unfold Gts.validate, Gts.validate_begin, Gts.validate_settle.
  destruct (Gts.validator a) as [v|]; simpl; auto 10.
  destruct (v _ _); simpl; auto 10.
Qed.


Lemma submit_finally_spec (st : Gts.store) :
  Gts.isSubmitting (Gts.submit_finally st) = false
  /\ Gts.submitCount (Gts.submit_finally st) = S (Gts.submitCount st)
  /\ Gts.isSubmitSuccessful (Gts.submit_finally st) = Gts.isSubmitSuccessful st
  /\ Gts.errors (Gts.submit_finally st) = Gts.errors st.
Proof. repeat split. Qed.

(** [submit] is its two halves, when nothing runs between them. *)
Lemma submit_is_begin_then_resume (st : Gts.store) :
  Gts.submit H a st
  = match Gts.submit_begin H a st with
    | (st1, Some (Some p)) =>
        match Gts.validate_settle st1 p with
        | (st2, Returned) =>
            let '(st', calls, out) := Gts.submit_resume a st2 in
            (st', Gts.PreventDefault :: calls, out)
        | (st2, Threw) => (Gts.submit_finally st2, [Gts.PreventDefault], Threw)
        end
    | (st1, _) =>
        let '(st', calls, out) := Gts.submit_resume a st1 in
        (st', Gts.PreventDefault :: calls, out)
    end.
Proof.
  unfold Gts.submit, Gts.submit_begin, Gts.submit_resume, Gts.validate.
  set (st1 := Gts.set_isSubmitted (Gts.set_isSubmitting st true) true).
  destruct (Gts.shouldValidateOrRevalidate a st1 onSubmit).
  - destruct (Gts.validate_begin H a st1 None) as [st2 [p|]].
    + destruct (Gts.validate_settle st2 p) as [st3 [|]]; [|reflexivity].
      destruct (negb (Gts.isValid st3)); [reflexivity|].
      destruct (Gts.arg_onSubmit a) as [f|]; [destruct (f _); reflexivity|].
      destruct (if includes (Gts.handleOn a) onSubmit then Gts.handler a else None)
        as [g|]; [destruct (g _); reflexivity|reflexivity].
    + destruct (negb (Gts.isValid st2)); [reflexivity|].
      destruct (Gts.arg_onSubmit a) as [f|]; [destruct (f _); reflexivity|].
      destruct (if includes (Gts.handleOn a) onSubmit then Gts.handler a else None)
        as [g|]; [destruct (g _); reflexivity|reflexivity].
  - destruct (negb (Gts.isValid st1)); [reflexivity|].
    destruct (Gts.arg_onSubmit a) as [f|]; [destruct (f _); reflexivity|].
    destruct (if includes (Gts.handleOn a) onSubmit then Gts.handler a else None)
      as [g|]; [destruct (g _); reflexivity|reflexivity].
Qed.

(** What [submit] does once it runs on, whatever the store is by then. *)
Lemma submit_resume_spec (resumed : Gts.store) :
  let '(st', calls, out) := Gts.submit_resume a resumed in
  Gts.isSubmitting st' = false
  /\ (callbacks_keep_count a -> Gts.submitCount st' = S (Gts.submitCount resumed))
  /\ (Gts.isValid resumed = false ->
        Gts.isSubmitSuccessful st' = Some false /\ calls = [] /\ out = Returned
        /\ Gts.submitCount st' = S (Gts.submitCount resumed)
        /\ Gts.errors st' = Gts.errors resumed).
Proof.
  unfold Gts.submit_resume.
  destruct (Gts.isValid resumed) eqn:Hvalid; simpl.
  - destruct (Gts.arg_onSubmit a) as [f|] eqn:Hf.
    + destruct (f _) as [st4 r] eqn:Hcall. split; [reflexivity|]. split.
      * intros Hk. simpl.
        pose proof (Hk f (or_introl Hf)
                      (Gts.set_isSubmitSuccessful resumed (Some true))) as Hk'.
        rewrite Hcall in Hk'. simpl in Hk'. now rewrite Hk'.
      * discriminate.
    + destruct (if includes (Gts.handleOn a) onSubmit then Gts.handler a else None)
        as [g|] eqn:Hg.
      * destruct (g _) as [st4 r] eqn:Hcall. split; [reflexivity|]. split.
        -- intros Hk. simpl.
           assert (Hh : Gts.handler a = Some g).
           { destruct (includes (Gts.handleOn a) onSubmit); [exact Hg|discriminate]. }
           pose proof (Hk g (or_intror Hh)
                         (Gts.set_isSubmitSuccessful resumed (Some true))) as Hk'.
           rewrite Hcall in Hk'. simpl in Hk'. now rewrite Hk'.
        -- discriminate.
      * split; [reflexivity|]. split; [reflexivity|discriminate].
  - repeat split.
Qed.

(** C2, as the code has it.  [submit] reads [isValid] when it runs on,
    after the validation it awaited, or at once when the submit event
    triggers no validation.  Whatever the store is by then, the
    submitting flag is cleared on every exit and, the callbacks not
    submitting the form themselves, [submitCount] has grown by exactly
    one; and when the error map is not empty, [isSubmitSuccessful]
    becomes false and neither the submit handler nor the changed-values
    handler is called.  A submit whose validation rejects passes through
    the same [finally].  In particular, when the submit event triggers
    validation, the validator reports at least one field error and
    nothing else runs before the submit runs on, [isSubmitSuccessful] is
    false, no handler is called, and the count has grown by one. *)
Theorem submit_on_invalid_form (st resumed : Gts.store) :
  (let '(st', calls, out) := Gts.submit_resume a resumed in
   Gts.isSubmitting st' = false
   /\ (callbacks_keep_count a -> Gts.submitCount st' = S (Gts.submitCount resumed))
   /\ (Gts.isValid resumed = false ->
         Gts.isSubmitSuccessful st' = Some false /\ calls = [] /\ out = Returned
         /\ Gts.submitCount st' = S (Gts.submitCount resumed)
         /\ Gts.errors st' = Gts.errors resumed))
  /\ (Gts.isSubmitting (Gts.submit_finally resumed) = false
      /\ Gts.submitCount (Gts.submit_finally resumed) = S (Gts.submitCount resumed))
  /\ (forall v errs,
        Gts.shouldValidateOrRevalidate a st onSubmit = true ->
        Gts.validator a = Some v ->
        v (Gts.parsedValues H st) (Gts.nativeValidations st) = Resolved errs ->
        errs <> [] ->
        let '(st', calls, out) := Gts.submit H a st in
        Gts.isSubmitSuccessful st' = Some false
        /\ ~ In Gts.CallOnSubmit calls /\ ~ In Gts.CallHandler calls
        /\ Gts.submitCount st' = S (Gts.submitCount st)
        /\ Gts.isSubmitting st' = false
        /\ Gts.errors st' = errs
        /\ out = Returned).
Proof.
  split; [apply submit_resume_spec|]. split; [split; reflexivity|].
  intros v errs Ht Hv Hr Hne. rewrite submit_is_begin_then_resume.
  unfold Gts.submit_begin.
  change (Gts.shouldValidateOrRevalidate a
            (Gts.set_isSubmitted (Gts.set_isSubmitting st true) true) onSubmit)
    with (Gts.shouldValidateOrRevalidate a st onSubmit).
  rewrite Ht. unfold Gts.validate_begin. rewrite Hv.
  unfold Gts.validate_settle. cbn [Gts.p_result Gts.p_field].
  match goal with
  | |- context [v ?x ?y] =>
      change (v x y) with (v (Gts.parsedValues H st) (Gts.nativeValidations st))
  end.
  rewrite Hr.
  match goal with
  | |- context [Gts.submit_resume a ?s] =>
      pose proof (submit_resume_spec s) as T;
      assert (Hinv : Gts.isValid s = false)
        by (unfold Gts.isValid; simpl; destruct errs; [congruence|reflexivity]);
      destruct (Gts.submit_resume a s) as [[st' calls] out]
  end.
  destruct T as (Hflag & _ & T). destruct (T Hinv) as (Hs & Hc & Ho & Hn & He).
  subst calls. repeat split; auto.
  - intros [E|[]]; discriminate.
  - intros [E|[]]; discriminate.
Qed.

(** A settled validation is applied whatever has been requested since:
    [validate] keeps no trace of what is in flight. *)
Lemma settle_always_applies (w : Gts.world) (i : nat) (p : Gts.pending)
  (validation : props) :
  nth_error (Gts.in_flight w) i = Some p ->
  Gts.p_result p = Resolved validation ->
  Gts.errors (Gts.w_store (Gts.step H a w (Gts.Settle i)))
  = apply_validation (Gts.errors (Gts.w_store w)) (Gts.p_field p) validation.
Proof.
  intros Hn Hr. unfold Gts.step. rewrite Hn. unfold Gts.validate_settle.
  rewrite Hr. reflexivity.
Qed.

(** A single-field rollback with a truthy [defaultValue] on a field
    without a dot: the value and the snapshot entry of the field both
    become the default. *)
Lemma rollback_truthy_default
  (st : Gts.store) (f : string) (ctx : Gts.RollbackContext) :
  f <> "" -> has_dot f = false -> toBoolean (Gts.defaultValue ctx) = true ->
  let st' := Gts.rollback st (Some f) ctx in
  Gts.getDefaultValue st' f = Gts.defaultValue ctx
  /\ own_get (Gts.values st') f = Some (Gts.defaultValue ctx).
Proof.
  intros Hne Hd Ht. unfold Gts.rollback, field_given.
  apply String.eqb_neq in Hne. rewrite Hne, Ht.
  assert (Hn : nullish (Gts.defaultValue ctx) = false).
  { destruct (Gts.defaultValue ctx); simpl in *; congruence. }
  destruct (Gts.keepError ctx), (Gts.keepDirty ctx); simpl;
    unfold Gts.getDefaultValue, get, get_value; simpl; rewrite Hd; simpl;
    rewrite !own_get_own_set_same; unfold coalesce at 1; rewrite Hn; auto.
Qed.

(** The later revision has no record branch: there the whole-form
    rollback is idempotent on the whole store and always leaves a deep
    copy of the snapshot. *)
Lemma gts_whole_form_rollback (st : Gts.store) (ctx : Gts.RollbackContext) :
  let st1 := Gts.rollback st None ctx in
  Gts.rollback st1 None ctx = st1
  /\ Gts.values st1 = clone_props (Gts.rollbackValues st)
  /\ Gts.isSubmitted st1 = false.
Proof.
  destruct st, ctx as [ke kd d]; destruct ke, kd; cbn; repeat split.
Qed.

Lemma gts_validate_needs_validator (st : Gts.store) (field : option string) :
  Gts.validator a = None ->
  Gts.errors (fst (Gts.validate H a st field)) = Gts.errors st
  /\ snd (Gts.validate H a st field) = Returned.
Proof.
  intros Hv. unfold Gts.validate, Gts.validate_begin. rewrite Hv. auto.
Qed.

Lemma gts_round_trip
  (st : Gts.store) (f : string) (v : value) (ctx : Gts.SetContext)
  (before after : props) :
  own_set (Gts.values st) f v = before ++ (f, v) :: after ->
  (forall k, In k (keys after) -> head_segment k <> head_segment f) ->
  Forall (fun seg => unsafe_key seg = false) (split_dots f) ->
  Gts.getValue H (fst (Gts.setValue H a st f v ctx)) f
  = Gts.formatValue H v (parser_for (Gts.parsers st) f).
Proof.
  intros Hsplit Hafter Hsafe.
  assert (E : forall s,
             Gts.values s = own_set (Gts.values st) f v ->
             Gts.parsers s = Gts.parsers st ->
             Gts.getValue H s f = Gts.formatValue H v (parser_for (Gts.parsers st) f)).
  { intros s Hv Hp. unfold Gts.getValue, Gts.parsedValues, Gts.formatValue.
    rewrite Hv, Hp, Hsplit.
    now apply (parse_entries_get H (Gts.parsers st) before after f v). }
  unfold Gts.setValue.
  set (st1 := Gts.set_values st (own_set (Gts.values st) f v)).
  set (st2 := if Gts.shouldDirty ctx then Gts.dirtyField H st1 f else st1).
  assert (Hv2 : Gts.values st2 = own_set (Gts.values st) f v)
    by (subst st2; destruct (Gts.shouldDirty ctx); reflexivity).
  assert (Hp2 : Gts.parsers st2 = Gts.parsers st)
    by (subst st2; destruct (Gts.shouldDirty ctx); reflexivity).
  destruct (Gts.shouldValidate ctx).
  - pose proof (validate_keeps_bags st2 (Some f)) as (Hv & Hp & _).
    apply E; congruence.
  - now apply E.
Qed.

Lemma gts_validation_writes
  (st : Gts.store) (field : option string)
  (v : props -> props -> settled) (validation : props) :
  Gts.validator a = Some v ->
  v (Gts.parsedValues H st) (Gts.nativeValidations st) = Resolved validation ->
  Gts.errors (fst (Gts.validate H a st field))
  = apply_validation (Gts.errors st) field validation.
Proof.
  intros Hv Hr.
  unfold Gts.validate, Gts.validate_begin, Gts.validate_settle.
  rewrite Hv. simpl.
  change (Gts.parsedValues H (Gts.set_isValidating st true))
    with (Gts.parsedValues H st).
  now rewrite Hr.
Qed.

Lemma gts_validity_reads (st : Gts.store) (f : string) :
  (FieldState.isInvalid (Gts.getFieldState st f) = true <->
   exists e, own_get (Gts.errors st) f = Some e /\ nonempty_entry e)
  /\ (Gts.isValid st = true <-> Gts.errors st = []).
Proof.
  split; [split|split].
  - unfold Gts.getFieldState, fieldState, prop; simpl.
    rewrite Bool.negb_true_iff, isEmpty_false_iff.
    destruct (own_get (Gts.errors st) f) as [e|].
    + intros Hn. now exists e.
    + intros Hn. inversion Hn.
  - intros (e & He & Hn).
    unfold Gts.getFieldState, fieldState, prop; simpl.
    rewrite He. rewrite Bool.negb_true_iff. now apply isEmpty_false_iff.
  - unfold Gts.isValid; simpl. destruct (Gts.errors st); auto; discriminate.
  - unfold Gts.isValid; simpl. intros ->. reflexivity.
Qed.

Lemma gts_invalidFields_keys (st : Gts.store) (k : string) :
  In k (keys (Gts.invalidFields st)) -> has_dot k = false.
Proof. apply invalid_of_no_dotted_key. Qed.

End GtsFacts.

Lemma validate_without_validator_witness :
  Classic.validate small_host no_validator
    (Classic.setError (Classic.create (Classic.Plain [("foo", VStr "x")])) "foo"
       (Message "bad"))
    (Some "foo")
  = (Classic.setError (Classic.create (Classic.Plain [("foo", VStr "x")])) "foo"
       (Message "bad"),
     Returned).
Proof.
  apply (proj1 (validate_without_validator small_host no_validator _ _ eq_refl)).
Defined.

(** C7 fails on a field whose name holds a dot.  The error entry of a
    field is the one under its name: [getFieldState], [setError] and
    [rollback] read and write [errors[name]].  [validate("a.b")] writes
    the validator's answer for the field with lodash [set], along the
    path: the entry under ["a.b"] is left as it was and the entry under
    ["a"] is created.  The field the validator found in error is not
    reported invalid, ["a"] is; [setError("a.b", ...)] on the same store
    writes the entry under ["a.b"] and the field is reported invalid.  A
    validator that answers under the literal key ["a.b"] fares no
    better: its answer is read along the path, and lost. *)
Theorem validate_misses_the_dotted_field :
  let st := Classic.create (Classic.Plain [("a", obj [("b", VStr "")])]) in
  let st' := fst (Classic.validate small_host nested_validator st (Some "a.b")) in
  let st_e := Classic.setError st "a.b" (Message "required") in
  let st_f := fst (Classic.validate small_host flat_validator st (Some "a.b")) in
  get nested_error "a.b" = arr [("0", required_error)]
  /\ Classic.errors st' = [("a", obj [("b", arr [("0", required_error)])])]
  /\ own_get (Classic.errors st') "a.b" = None
  /\ FieldState.isInvalid (Classic.getFieldState st' "a.b") = false
  /\ FieldState.isInvalid (Classic.getFieldState st "a") = false
  /\ FieldState.isInvalid (Classic.getFieldState st' "a") = true
  /\ Classic.errors st_e = [("a.b", arr [("0", required_error)])]
  /\ FieldState.isInvalid (Classic.getFieldState st_e "a.b") = true
  /\ Classic.errors st_f = [("a", obj [("b", VUndef)])]
  /\ FieldState.isInvalid (Classic.getFieldState st_f "a.b") = false.
Proof. repeat split. Qed.



(** C5 as stated fails on a record: the rollback writes the snapshot
    entries back into the record, which is not replaced by a copy of the
    snapshot and keeps what the snapshot does not hold. *)
Lemma rollback_keeps_the_record :
  let st := fst (Classic.setValue small_host no_validator
                   (Classic.create (Classic.Model [("str", VStr "Child")]))
                   "note" (VStr "kept") plain_write) in
  let st1 := Classic.rollback st None Classic.no_context in
  Classic.values st1 <> Classic.Plain (clone_props (Classic.rollbackValues st))
  /\ Classic.values st1 <> Classic.Model (clone_props (Classic.rollbackValues st))
  /\ Classic.getValue small_host st1 "note" = VStr "kept"
  /\ get (Classic.rollbackValues st) "note" = VUndef.
Proof. cbv zeta. repeat split; vm_compute; discriminate. Qed.

(** The record of the examples is one on which [set] is read back by
    [get] and leaves the other attributes alone, for attribute names
    without a dot. *)
Lemma object_record_writes (attrs : list string) :
  Forall (fun k => has_dot k = false) attrs -> attribute_writes attrs.
Proof.
  intros Hd. rewrite Forall_forall in Hd. split.
  - intros r k v Hk. simpl. unfold get, get_value. rewrite (Hd k Hk).
    unfold getProp, obj. now rewrite own_get_own_set_same.
  - intros r k k' v Hk Hk' Hne. simpl. unfold get, get_value. rewrite (Hd k' Hk').
    unfold getProp, obj. now rewrite own_get_own_set_other.
Qed.

Lemma rollback_idempotent_witness :
  let st := fst (Classic.setValue small_host no_validator
                   (Classic.create (Classic.Model [("str", VStr "Child")]))
                   "str" (VStr "New Child") plain_write) in
  let st1 := Classic.rollback st None Classic.no_context in
  let st2 := Classic.rollback st1 None Classic.no_context in
  Classic.getValue small_host st2 "str" = Classic.getValue small_host st1 "str"
  /\ Classic.getValue small_host st1 "str" = VStr "Child"
  /\ st2 = st1.
Proof.
  pose proof (rollback_idempotent
                (fst (Classic.setValue small_host no_validator
                        (Classic.create (Classic.Model [("str", VStr "Child")]))
                        "str" (VStr "New Child") plain_write))
                Classic.no_context ["str"]) as T.
  cbv zeta in T. destruct T as (_ & _ & _ & _ & _ & _ & _ & T).
  cbn in T. destruct T as (_ & _ & T).
  destruct T as (Hsame & Hlast & _).
  - apply object_record_writes. repeat constructor.
  - intros k Hk. exact Hk.
  - cbv zeta. split; [|split].
    + exact (Hsame "str" (or_introl eq_refl)).
    + refine (Hlast [] "str" (VStr "Child") [] eq_refl _). intros [].
    + reflexivity.
Defined.



(** What C1's theorem leaves out, with the objects held by reference.
    The values are [{a: {b: 1}}]; ["a.b"] is set to 2; the field ["a"]
    is rolled back, which stores the snapshot's own object under
    [values.a].  Reading the parsed view then writes 2 into that object:
    the snapshot holds 2 for ["a.b"].  When ["a.b"] is now set to 1 and
    marked, the snapshot is read first, as 2, the parsed view is
    computed, which writes 1 into the snapshot, and the field is marked
    dirty; yet [getValue] and [getDefaultValue] both return 1.  By value
    the same calls leave the field not dirty. *)
Lemma field_rollback_shares_the_snapshot :
  let st0 := ByRef.create [("a", obj [("b", VNum 1)])] in
  let st1 := ByRef.setValue small_host st0 "a.b" (VNum 2) false in
  let st2 := ByRef.rollback st1 (Some "a") Gts.no_context in
  let st3 := snd (ByRef.getValue small_host st2 "a.b") in
  let st4 := ByRef.setValue small_host st3 "a.b" (VNum 1) true in
  let by_value :=
    fst (Gts.setValue small_host quiet
           (Gts.rollback
              (fst (Gts.setValue small_host quiet (Gts.create [("a", obj [("b", VNum 1)])])
                      "a.b" (VNum 2) quiet_write))
              (Some "a") Gts.no_context)
           "a.b" (VNum 1) dirty_write) in
  ByRef.rget (ByRef.values st1) "a" <> ByRef.rget (ByRef.rollbackValues st1) "a"
  /\ ByRef.rget (ByRef.values st2) "a" = ByRef.rget (ByRef.rollbackValues st2) "a"
  /\ ByRef.getDefaultValue st2 "a.b" = VNum 1
  /\ fst (ByRef.getValue small_host st2 "a.b") = VNum 2
  /\ ByRef.getDefaultValue st3 "a.b" = VNum 2
  /\ prop (ByRef.dirtyFields st4) "a.b" = VBool true
  /\ ByRef.getDefaultValue st4 "a.b" = VNum 1
  /\ fst (ByRef.getValue small_host st4 "a.b") = VNum 1
  /\ prop (Gts.dirtyFields by_value) "a.b" = VBool false.
Proof. cbv zeta. repeat split. vm_compute. discriminate. Qed.

(** The parsed view writes into the objects it is built from.  With the
    values [{a: {}}] and the field ["a.b.c"] stored before the field
    ["a.b"], an object set under ["a.b"] is read back as it was given
    once; the view built for that reading has left it under [values.a],
    where the next view finds it and writes the value of ["a.b.c"] into
    it: the second reading returns another value, with no call in
    between.  By value every reading returns the object as given. *)
Lemma parsed_view_writes_into_stored_objects :
  let st0 := ByRef.setValue small_host (ByRef.create [("a", obj [])]) "a.b.c" (VNum 1) false in
  let st1 := ByRef.setValue small_host (snd (ByRef.getValue small_host st0 "a"))
               "a.b" (obj [("d", VNum 2)]) false in
  let '(first, st2) := ByRef.getValue small_host st1 "a.b" in
  let '(second, _) := ByRef.getValue small_host st2 "a.b" in
  first = obj [("d", VNum 2)]
  /\ second = obj [("d", VNum 2); ("c", VNum 1)]
  /\ Gts.getValue small_host
       (after_calls small_host quiet [("a", obj [])]
          [SetValue "a.b.c" (VNum 1) quiet_write;
           SetValue "a.b" (obj [("d", VNum 2)]) quiet_write])
       "a.b" = obj [("d", VNum 2)].
Proof. repeat split. Qed.

(** Without a single-field rollback the two agree on the scenario of the
    rollback tests: a nested field is written, found dirty, and the
    form rolled back. *)
Lemma by_reference_nested_field :
  let st1 := ByRef.setValue small_host (ByRef.create [("foo", obj [("bar", VStr "DEFAULT")])])
               "foo.bar" (VStr "CHANGED") true in
  let st2 := ByRef.rollback st1 None Gts.no_context in
  prop (ByRef.dirtyFields st1) "foo.bar" = VBool true
  /\ fst (ByRef.getValue small_host st1 "foo.bar") = VStr "CHANGED"
  /\ ByRef.getDefaultValue st1 "foo.bar" = VStr "DEFAULT"
  /\ fst (ByRef.getValue small_host st2 "foo.bar") = VStr "DEFAULT".
Proof. repeat split. Qed.

Lemma submit_on_invalid_form_witness :
  let '(st', calls, out) :=
    Gts.submit small_host guarded (Gts.create [("foo", VStr "")]) in
  Gts.isSubmitSuccessful st' = Some false
  /\ ~ In Gts.CallOnSubmit calls /\ ~ In Gts.CallHandler calls
  /\ Gts.submitCount st' = 1
  /\ Gts.isSubmitting st' = false.
Proof.
  pose proof (submit_on_invalid_form small_host guarded
                (Gts.create [("foo", VStr "")]) (Gts.create [("foo", VStr "")])) as T.
  destruct T as (_ & _ & T).
  specialize (T foo_required [("foo", arr [("0", required_error)])]
                eq_refl eq_refl eq_refl ltac:(discriminate)).
  destruct (Gts.submit small_host guarded (Gts.create [("foo", VStr "")]))
    as [[st' calls] out].
  destruct T as (Hs & Hn1 & Hn2 & Hc & Hf & _).
  repeat split; assumption.
Defined.

(** C2 as stated fails: which events trigger validation is the
    integrator's choice.  On a form that does not validate on submit, a
    submit attempt does not ask the validator: with ["foo"] empty, which
    the validator would report, the submit succeeds and calls the submit
    handler. *)
Lemma submit_skips_validation :
  let st := Gts.create [("foo", VStr "")] in
  let '(st', calls, out) := Gts.submit small_host unchecked_submit st in
  foo_required (Gts.parsedValues small_host st) (Gts.nativeValidations st)
  = Resolved [("foo", arr [("0", required_error)])]
  /\ Gts.isSubmitSuccessful st' = Some true
  /\ In Gts.CallOnSubmit calls
  /\ Gts.submitCount st' = 1.
Proof. cbv zeta. vm_compute. repeat split. now right; left. Qed.

(** What C2's theorem leaves out: the stale validation of C3, when
    it settles between the validation a submit awaits and the moment the
    submit runs on.  A whole-form validation is requested while ["foo"]
    is filled in; ["foo"] is emptied and the form submitted; the
    validation of the submit settles, reporting ["foo"]; the earlier one
    settles, and its stale result empties the error map; the submit runs
    on, finds the form valid and calls the submit handler. *)
Lemma submit_reads_a_stale_result :
  let s := Gts.replay small_host guarded (at_rest (Gts.create [("foo", VStr "ok")]))
             [Gts.DoValidate None; Gts.DoWrite "foo" (VStr ""); Gts.DoSubmit;
              Gts.DoSettle 1; Gts.DoSettle 0; Gts.DoResume] in
  let s' := Gts.replay small_host guarded (at_rest (Gts.create [("foo", VStr "ok")]))
              [Gts.DoValidate None; Gts.DoWrite "foo" (VStr ""); Gts.DoSubmit;
               Gts.DoSettle 1] in
  Gts.errors (Gts.s_store s') = [("foo", arr [("0", required_error)])]
  /\ Gts.s_woken s' = [Returned]
  /\ Gts.isSubmitSuccessful (Gts.s_store s) = Some true
  /\ Gts.s_calls s = [Gts.PreventDefault; Gts.CallOnSubmit]
  /\ Gts.getValue small_host (Gts.s_store s) "foo" = VStr ""
  /\ Gts.submitCount (Gts.s_store s) = 1
  /\ Gts.isSubmitting (Gts.s_store s) = false.
Proof. repeat split. Qed.

(** C3 fails on the later revision.  A whole-form validation is requested
    while ["foo"] is empty; ["foo"] is filled in and a second whole-form
    validation is requested; the second settles, finding no error; then
    the first settles, and its stale result is written into the error
    map: the form is reported invalid with nothing in flight. *)
Theorem stale_validation_is_applied :
  let w0 := {| Gts.w_store := Gts.create [("foo", VStr "")]; Gts.in_flight := [] |} in
  let w := Gts.run small_host guarded w0
             [Gts.Request None; Gts.Write "foo" (VStr "ok"); Gts.Request None;
              Gts.Settle 1; Gts.Settle 0] in
  Gts.errors (Gts.w_store w) = [("foo", arr [("0", required_error)])]
  /\ Gts.isValid (Gts.w_store w) = false
  /\ Gts.in_flight w = []
  /\ foo_required (Gts.parsedValues small_host (Gts.w_store w))
       (Gts.nativeValidations (Gts.w_store w)) = Resolved [].
Proof. repeat split. Qed.

(** The same requests on the classic component, whose task is
    restartable: only the later validation is ever applied. *)
Lemma stale_validation_is_dropped :
  let w0 := {| Classic.w_store := Classic.create (Classic.Plain [("foo", VStr "")]);
               Classic.running := None |} in
  let w := Classic.run small_host guarded_classic w0
             [Classic.Perform None; Classic.Write "foo" (VStr "ok");
              Classic.Perform None; Classic.Settle; Classic.Settle] in
  Classic.errors (Classic.w_store w) = [] /\ Classic.running w = None.
Proof. repeat split. Qed.

(** C4 fails on the later revision for a falsy default.  After
    [rollback("foo", {defaultValue: ""})] the value of ["foo"] is the
    empty string, but the snapshot still holds the old default. *)
Theorem rollback_empty_default :
  let st := fst (Gts.setValue small_host quiet (Gts.create [("foo", VStr "DEFAULT")])
                   "foo" (VStr "UPDATED") quiet_write) in
  let st' := Gts.rollback st (Some "foo")
               {| Gts.keepError := false; Gts.keepDirty := false;
                  Gts.defaultValue := VStr "" |} in
  Gts.getValue small_host st' "foo" = VStr ""
  /\ Gts.getDefaultValue st' "foo" = VStr "DEFAULT".
Proof. repeat split. Qed.

(** On a dotted field the default is written under the literal key, where
    [getDefaultValue] does not read, and without a default the snapshot
    is read under the literal key, where it holds nothing. *)
Lemma rollback_dotted_field :
  let st := Gts.create [("foo", obj [("bar", VStr "DEFAULT")])] in
  Gts.getDefaultValue
    (Gts.rollback st (Some "foo.bar")
       {| Gts.keepError := false; Gts.keepDirty := false;
          Gts.defaultValue := VStr "Shiny and new!" |})
    "foo.bar" = VStr "DEFAULT"
  /\ Gts.getValue small_host (Gts.rollback st (Some "foo.bar") Gts.no_context) "foo.bar"
     = VUndef.
Proof. repeat split. Qed.

Lemma invalidFields_expands_dotted_keys_witness :
  get (Classic.invalidFields
         (Classic.setError
            (Classic.setError (Classic.create (Classic.Plain [])) "zip" (Message "bad"))
            "address.street" (Message "required")))
    "address.street"
  = VBool true.
Proof.
  apply (proj2 (proj2 (proj2
           (invalidFields_expands_dotted_keys
              (Classic.setError
                 (Classic.setError (Classic.create (Classic.Plain [])) "zip" (Message "bad"))
                 "address.street" (Message "required")))))
           ["zip"] [] "address.street" eq_refl).
  - intros k [].
  - repeat constructor.
Defined.

(* ================================================================== *)
(** ** More facts: array indices and their decimal form *)

Ltac digit_value :=
  match goal with
  | |- context [(N_of_ascii ?c - 48)%N] =>
      let v := eval vm_compute in (N_of_ascii c - 48)%N in
      change (N_of_ascii c - 48)%N with v
  end.

Lemma digits_value_acc (d : Decimal.uint) (acc : positive) :
  digits_value (NilEmpty.string_of_uint d) (N.pos acc) = N.pos (Pos.of_uint_acc d acc).
Proof.
  revert acc. induction d; intros acc;
    cbn [digits_value NilEmpty.string_of_uint Pos.of_uint_acc]; auto;
    rewrite <- IHd; f_equal; digit_value; lia.
Qed.

Lemma digits_value_of_uint (d : Decimal.uint) :
  digits_value (NilEmpty.string_of_uint d) 0 = N.of_uint d.
Proof.
  unfold N.of_uint. induction d;
    cbn [digits_value NilEmpty.string_of_uint Pos.of_uint]; auto;
    digit_value; try exact IHd; rewrite <- digits_value_acc; f_equal.
Qed.

Lemma all_digits_of_uint (d : Decimal.uint) :
  all_digits (NilEmpty.string_of_uint d) = true.
Proof. induction d; simpl; auto. Qed.

Lemma canonical_digits_unorm (d : Decimal.uint) :
  canonical_digits (NilEmpty.string_of_uint (Decimal.unorm d)) = true.
Proof.
  unfold Decimal.unorm.
  assert (Hnz : match Decimal.nzhead d with Decimal.D0 _ => False | _ => True end).
  { induction d; simpl; auto. }
  destruct (Decimal.nzhead d) as [|u|u|u|u|u|u|u|u|u|u]; try contradiction; simpl; auto;
    destruct (NilEmpty.string_of_uint u) eqn:E; auto;
    rewrite <- E; apply all_digits_of_uint.
Qed.

(** The decimal form of a number below 2^32 - 1 is an array index, and
    it is the index of that number. *)
Lemma array_index_string_of_N (n : N) :
  (n < 4294967295)%N -> array_index (string_of_N n) = Some n.
Proof.
  intros Hn. unfold array_index, string_of_N.
  rewrite digits_value_of_uint, DecimalN.Unsigned.of_to.
  rewrite <- (DecimalN.Unsigned.of_to n) at 1.
  rewrite DecimalN.Unsigned.to_of, canonical_digits_unorm.
  apply N.ltb_lt in Hn. now rewrite Hn.
Qed.

Lemma string_of_N_inj (i j : N) :
  (i < 4294967295)%N -> (j < 4294967295)%N ->
  string_of_N i = string_of_N j -> i = j.
Proof.
  intros Hi Hj E. apply array_index_string_of_N in Hi, Hj.
  rewrite E in Hi. congruence.
Qed.

Lemma array_length_app (l1 l2 : props) :
  array_length (l1 ++ l2) = N.max (array_length l1) (array_length l2).
Proof.
  induction l1 as [|[k x] rest IH]; simpl.
  - now rewrite N.max_0_l.
  - destruct (array_index k); rewrite IH; auto. now rewrite N.max_assoc.
Qed.

Lemma array_length_bound (ps : props) : (array_length ps <= 4294967295)%N.
Proof.
  induction ps as [|[k x] rest IH]; simpl; [lia|].
  destruct (array_index k) as [i|] eqn:E; auto.
  unfold array_index in E.
  destruct (canonical_digits k && (digits_value k 0 <? 4294967295)%N) eqn:C;
    [|discriminate].
  inversion E; subst i. apply andb_prop in C as [_ C]. apply N.ltb_lt in C. lia.
Qed.

Lemma array_length_range (vals : nat -> value) (a len : nat) :
  (N.of_nat (a + len) <= 4294967295)%N ->
  array_length (map (fun i => (string_of_N (N.of_nat i), vals i)) (seq a len))
  = match len with O => 0%N | S _ => N.of_nat (a + len) end.
Proof.
  revert a. induction len as [|len IH]; intros a Hb; [reflexivity|].
  simpl map. simpl array_length.
  rewrite array_index_string_of_N by lia.
  rewrite IH by (replace (S a + len) with (a + S len) by lia; exact Hb).
  destruct len; lia.
Qed.

Lemma array_length_dense (ps : props) (n : N) :
  (n <= 4294967295)%N -> array_length (dense ps n) = n.
Proof.
  intros Hn. unfold dense.
  rewrite (array_length_range (fun i => prop ps (string_of_N (N.of_nat i))) 0 (N.to_nat n))
    by (simpl; lia).
  destruct (N.to_nat n) eqn:E; simpl; lia.
Qed.

Lemma own_get_range (vals : nat -> value) (l : list nat) (i : nat) :
  In i l ->
  (forall j, In j l -> (N.of_nat j < 4294967295)%N) ->
  own_get (map (fun j => (string_of_N (N.of_nat j), vals j)) l) (string_of_N (N.of_nat i))
  = Some (vals i).
Proof.
  intros Hin Hb. induction l as [|j rest IH]; [contradiction|]. simpl.
  destruct (String.eqb (string_of_N (N.of_nat j)) (string_of_N (N.of_nat i))) eqn:E.
  - apply String.eqb_eq in E. apply string_of_N_inj in E.
    + apply Nat2N.inj in E. now subst j.
    + apply Hb. simpl; auto.
    + apply Hb. exact Hin.
  - destruct Hin as [->|Hin].
    + now rewrite String.eqb_refl in E.
    + apply IH; auto. intros j' Hj'. apply Hb. simpl; auto.
Qed.

Lemma own_get_range_none (vals : nat -> value) (l : list nat) (n : N) :
  (n < 4294967295)%N ->
  (forall j, In j l -> (N.of_nat j < n)%N) ->
  own_get (map (fun j => (string_of_N (N.of_nat j), vals j)) l) (string_of_N n) = None.
Proof.
  intros Hn Hb. induction l as [|j rest IH]; [reflexivity|]. simpl.
  destruct (String.eqb (string_of_N (N.of_nat j)) (string_of_N n)) eqn:E.
  - apply String.eqb_eq in E. apply string_of_N_inj in E; try lia.
    + specialize (Hb j (or_introl eq_refl)). lia.
    + specialize (Hb j (or_introl eq_refl)). lia.
  - apply IH. intros j' Hj'. apply Hb. simpl; auto.
Qed.

(** The array [[...old, e]] that [setError] stores: one element longer
    than [old], with the elements of [old] in place and [e] last. *)
Lemma spread_append (ps : props) (e : value) :
  let n := array_length ps in
  let new := dense ps n ++ [(string_of_N (N.of_nat (List.length (dense ps n))), e)] in
  (n < 4294967295)%N ->
  array_length new = N.succ n
  /\ prop new (string_of_N n) = e
  /\ forall i, (i < n)%N -> prop new (string_of_N i) = prop ps (string_of_N i).
Proof.
  intros n new Hn. subst new.
  assert (Hlen : N.of_nat (List.length (dense ps n)) = n).
  { unfold dense. rewrite length_map, length_seq. lia. }
  rewrite Hlen. split; [|split].
  - rewrite array_length_app, array_length_dense by lia. simpl.
    rewrite array_index_string_of_N by lia. lia.
  - unfold prop. rewrite own_get_app. unfold dense.
    rewrite own_get_range_none; auto.
    + simpl. now rewrite String.eqb_refl.
    + intros j Hj. apply in_seq in Hj. lia.
  - intros i Hi. unfold prop at 1. rewrite own_get_app. unfold dense.
    rewrite <- (N2Nat.id i).
    rewrite (own_get_range (fun j => prop ps (string_of_N (N.of_nat j)))); auto.
    + apply in_seq. lia.
    + intros j Hj. apply in_seq in Hj. lia.
Qed.

Lemma array_length_first_index (x : value) (rest : props) :
  (0 < array_length (("0", x) :: rest))%N.
Proof. simpl. change (array_index "0") with (Some 0%N). lia. Qed.

(** Whatever the entry was, the array [append_error] stores holds an
    element. *)
Lemma append_error_nonempty (errs : props) (key : string) (e : value) :
  exists ps, own_get (append_error errs key e) key = Some (arr ps)
             /\ (0 < array_length ps)%N.
Proof.
  unfold append_error. eexists. split; [apply own_get_own_set_same|].
  destruct (coalesce (prop errs key) (arr [])) as [| | | | | |k ps];
    try (simpl; change (array_index (string_of_N 0)) with (Some 0%N); lia).
  destruct k; try (simpl; change (array_index (string_of_N 0)) with (Some 0%N); lia).
  rewrite array_length_app. unfold dense.
  destruct (N.to_nat (array_length ps)) eqn:E.
  - simpl. change (array_index (string_of_N 0)) with (Some 0%N). lia.
  - simpl seq. simpl map. simpl array_length at 1.
    change (array_index (string_of_N 0)) with (Some 0%N). lia.
Qed.

Lemma own_set_nonempty (ps : props) (k : string) (v : value) : own_set ps k v <> [].
Proof.
  intros E. pose proof (own_get_own_set_same ps k v) as G. rewrite E in G. discriminate.
Qed.

(* ================================================================== *)
(** ** More facts: the error map *)

(** X1.  [setError] accumulates: when the field has no entry, or an
    array of fewer than 2^32 - 1 errors, the new entry is an array one
    element longer, the earlier errors keep their places, and the last
    element is the new record, whose [value] defaults to the current
    parsed value of the field.  No other entry of the error map changes;
    the field is then invalid and the form is invalid. *)
Theorem setError_appends
  (H : host) (st : Gts.store) (f : string) (e : error_arg) (ps : props) :
  coalesce (prop (Gts.errors st) f) (arr []) = arr ps ->
  (array_length ps < 4294967295)%N ->
  (exists new : props,
     own_get (Gts.errors (Gts.setError H st f e)) f = Some (arr new)
     /\ array_length new = N.succ (array_length ps)
     /\ (forall i, (i < array_length ps)%N ->
           prop new (string_of_N i) = prop ps (string_of_N i))
     /\ prop new (string_of_N (array_length ps)) = error_record e (Gts.getValue H st f))
  /\ (forall k, k <> f ->
        own_get (Gts.errors (Gts.setError H st f e)) k = own_get (Gts.errors st) k)
  /\ FieldState.isInvalid (Gts.getFieldState (Gts.setError H st f e) f) = true
  /\ Gts.isValid (Gts.setError H st f e) = false.
Proof.
  intros Hold Hn.
  pose proof (spread_append ps (error_record e (Gts.getValue H st f)) Hn)
    as (Hlen & Hlast & Hkeep).
  split; [|split; [|split]].
  - unfold Gts.setError, append_error. simpl. rewrite Hold. unfold arr at 1.
    eexists. split; [apply own_get_own_set_same|].
    split; [exact Hlen|]. split; [exact Hkeep|exact Hlast].
  - intros k Hk. unfold Gts.setError, append_error. simpl.
    now apply own_get_own_set_other.
  - destruct (append_error_nonempty (Gts.errors st) f
                (error_record e (Gts.getValue H st f))) as (qs & Hg & Hl).
    unfold Gts.getFieldState, fieldState, Gts.setError, prop. simpl.
    rewrite Hg. simpl. apply Bool.negb_true_iff. apply N.eqb_neq. lia.
  - unfold Gts.isValid, Gts.setError, append_error. simpl.
    match goal with |- context [own_set ?p ?k ?v] =>
      pose proof (own_set_nonempty p k v); destruct (own_set p k v) end;
      [congruence|reflexivity].
Qed.

Lemma setError_appends_witness :
  exists new : props,
    own_get
      (Gts.errors
         (Gts.setError small_host
            (Gts.setError small_host (Gts.create [("foo", VStr "x")]) "foo" (Message "a"))
            "foo" (Message "b")))
      "foo" = Some (arr new)
    /\ array_length new = 2%N.
Proof.
  destruct (setError_appends small_host
              (Gts.setError small_host (Gts.create [("foo", VStr "x")]) "foo" (Message "a"))
              "foo" (Message "b") _ eq_refl eq_refl)
    as ((new & Hg & Hl & _) & _).
  exists new. split; [exact Hg|exact Hl].
Defined.

Lemma own_get_own_delete_same (ps : props) (k : string) : own_get (own_delete ps k) k = None.
Proof.
  induction ps as [|[k0 x] rest IH]; simpl; auto.
  destruct (String.eqb k0 k) eqn:E; simpl; rewrite ?E; auto.
Qed.

Lemma own_get_own_delete_other (ps : props) (k k' : string) :
  k' <> k -> own_get (own_delete ps k) k' = own_get ps k'.
Proof.
  intros Hne. induction ps as [|[k0 x] rest IH]; simpl; auto.
  destruct (String.eqb k0 k) eqn:E; simpl.
  - apply String.eqb_eq in E. subst k0.
    destruct (String.eqb k k') eqn:E'; auto.
    apply String.eqb_eq in E'. congruence.
  - destruct (String.eqb k0 k'); auto.
Qed.

Lemma own_get_In (ps : props) (k : string) (v : value) :
  own_get ps k = Some v -> In (k, v) ps.
Proof.
  induction ps as [|[k0 x] rest IH]; simpl; [discriminate|].
  destruct (String.eqb k0 k) eqn:E.
  - apply String.eqb_eq in E. intros G. inversion G; subst. auto.
  - auto.
Qed.

Lemma falsy_isEmpty (v : value) : toBoolean v = false -> _isEmpty v = true.
Proof.
  destruct v; simpl; auto; try discriminate.
  intros E. apply Bool.negb_false_iff in E. exact E.
Qed.

Lemma truthy_has_own (ps : props) (k : string) :
  toBoolean (prop ps k) = true -> has_own ps k = true.
Proof. unfold prop, has_own. destruct (own_get ps k); auto. Qed.

Lemma castPath_literal (ps : props) (path : string) :
  has_dot path = false \/ has_own ps path = true -> castPath ps path = [path].
Proof.
  unfold castPath. intros [-> | ->]; auto. now rewrite Bool.andb_false_r.
Qed.

Lemma baseSet_safe_top (ps : props) (key : string) (rest : list string) (v : value) :
  unsafe_key key = false -> exists x, baseSet ps (key :: rest) v = own_set ps key x.
Proof.
  intros Hs. simpl. rewrite Hs. destruct rest as [|next more].
  - now exists v.
  - destruct (own_get ps key) as [[| | | | | |k inner]|]; eexists; reflexivity.
Qed.

(** X2.  [clearError(f)] of the later revision always leaves [f] not
    invalid and never touches the entry of another key: a truthy entry
    is deleted with its key, a falsy one is left in place.  Only the
    error map changes. *)
Theorem clearError_clears_the_field (st : Gts.store) (f : string) :
  FieldState.isInvalid (Gts.getFieldState (Gts.clearError st f) f) = false
  /\ (forall k, k <> f ->
        own_get (Gts.errors (Gts.clearError st f)) k = own_get (Gts.errors st) k)
  /\ (if toBoolean (prop (Gts.errors st) f)
      then has_own (Gts.errors (Gts.clearError st f)) f = false
      else Gts.clearError st f = st)
  /\ Gts.clearError st f = Gts.set_errors st (Gts.errors (Gts.clearError st f)).
Proof.
  unfold Gts.clearError.
  destruct (toBoolean (prop (Gts.errors st) f)) eqn:Ht.
  - assert (E : _unset (Gts.errors st) f = own_delete (Gts.errors st) f).
    { unfold _unset. rewrite castPath_literal; auto.
      right. now apply truthy_has_own. }
    rewrite E. unfold Gts.getFieldState, fieldState, prop, has_own. simpl.
    rewrite own_get_own_delete_same. repeat split.
    intros k Hk. now apply own_get_own_delete_other.
  - unfold Gts.getFieldState, fieldState. simpl.
    rewrite (falsy_isEmpty _ Ht). repeat split. now destruct st.
Qed.

(** X3.  The classic [clearError(f)] writes [undefined] under the key and
    keeps the key: for a key without a dot that lodash accepts, the field
    is valid again but the form stays invalid, and [errorMessages]
    throws when it reads the message of that entry. *)
Theorem clearError_keeps_the_key
  {R : Type} (st : Classic.store R) (f : string) :
  has_dot f = false -> unsafe_key f = false ->
  own_get (Classic.errors (Classic.clearError st f)) f = Some VUndef
  /\ FieldState.isInvalid (Classic.getFieldState (Classic.clearError st f) f) = false
  /\ Classic.isValid (Classic.clearError st f) = false
  /\ Classic.errorMessages (Classic.clearError st f) = None
  /\ (forall k, k <> f ->
        own_get (Classic.errors (Classic.clearError st f)) k
        = own_get (Classic.errors st) k).
Proof.
  intros Hd Hs.
  assert (E : Classic.errors (Classic.clearError st f) = own_set (Classic.errors st) f VUndef).
  { unfold Classic.clearError, _set. simpl.
    rewrite castPath_literal by auto. simpl. now rewrite Hs. }
  assert (G : own_get (Classic.errors (Classic.clearError st f)) f = Some VUndef).
  { rewrite E. apply own_get_own_set_same. }
  split; [exact G|]. split; [|split; [|split]].
  - unfold Classic.getFieldState, fieldState, prop. simpl in *. now rewrite G.
  - unfold Classic.isValid. rewrite E.
    pose proof (own_set_nonempty (Classic.errors st) f VUndef).
    destruct (own_set (Classic.errors st) f VUndef); [congruence|reflexivity].
  - unfold Classic.errorMessages.
    assert (X : existsb nullish (flat_values (Classic.errors (Classic.clearError st f))) = true).
    { apply existsb_exists. exists VUndef. split; [|reflexivity].
      unfold flat_values. apply in_flat_map. exists VUndef. split; [|simpl; auto].
      apply own_get_In in G. apply (in_map snd) in G. exact G. }
    now rewrite X.
  - intros k Hk. rewrite E. now apply own_get_own_set_other.
Qed.

Lemma clearError_keeps_the_key_witness :
  Classic.isValid
    (Classic.clearError
       (Classic.setError (Classic.create (Classic.Plain [])) "foo" (Message "bad")) "foo")
  = false
  /\ Classic.errorMessages
       (Classic.clearError
          (Classic.setError (Classic.create (Classic.Plain [])) "foo" (Message "bad")) "foo")
     = None.
Proof.
  destruct (clearError_keeps_the_key
              (Classic.setError (Classic.create (Classic.Plain [])) "foo" (Message "bad"))
              "foo" eq_refl eq_refl) as (_ & _ & Hv & Hm & _).
  split; assumption.
Defined.

Lemma unsafe_key_no_dot (k : string) : unsafe_key k = true -> has_dot k = false.
Proof.
  unfold unsafe_key. intros E.
  apply Bool.orb_true_iff in E as [E|E]; [apply Bool.orb_true_iff in E as [E|E]|];
    apply String.eqb_eq in E; subst k; reflexivity.
Qed.

(** [_set] with a path whose first segment lodash accepts always leaves
    a key in the object. *)
Lemma set_leaves_a_key (ps : props) (path : string) (v : value) :
  unsafe_key (head_segment path) = false -> _set ps path v <> [].
Proof.
  intros Hs. unfold _set.
  destruct (castPath_cases ps path) as [E|(Hd & Ho & E)]; rewrite E.
  - assert (Hp : unsafe_key path = false).
    { destruct (has_dot path) eqn:Hd.
      - destruct (unsafe_key path) eqn:U; auto.
        apply unsafe_key_no_dot in U. congruence.
      - now rewrite head_segment_plain in Hs. }
    destruct (baseSet_safe_top ps path [] v Hp) as [x ->]. apply own_set_nonempty.
  - pose proof (split_dots_nonempty path) as Hne. unfold head_segment in Hs.
    destruct (split_dots path) as [|key rest]; [congruence|]. simpl in Hs.
    destruct (baseSet_safe_top ps key rest v Hs) as [x ->]. apply own_set_nonempty.
Qed.

(* ================================================================== *)
(** ** More facts: validation and submit *)

(** X4.  A validation scoped to a field writes a key into the error map
    whatever the validator answered: once it has settled the form is
    invalid, even when the answer holds no error at all, in which case
    the field itself (a key without a dot) is not invalid. *)
Theorem field_validation_leaves_form_invalid
  (H : host) (a : Gts.args) (st : Gts.store) (f : string)
  (v : props -> props -> settled) (validation : props) :
  f <> "" ->
  unsafe_key (head_segment f) = false ->
  Gts.validator a = Some v ->
  v (Gts.parsedValues H st) (Gts.nativeValidations st) = Resolved validation ->
  Gts.isValid (fst (Gts.validate H a st (Some f))) = false
  /\ (has_dot f = false -> get validation f = VUndef ->
      own_get (Gts.errors (fst (Gts.validate H a st (Some f)))) f = Some VUndef
      /\ FieldState.isInvalid
           (Gts.getFieldState (fst (Gts.validate H a st (Some f))) f) = false).
Proof.
  intros Hne Hs Hv Hr.
  pose proof (gts_validation_writes H a st (Some f) v validation Hv Hr) as E.
  unfold apply_validation, field_given in E.
  apply String.eqb_neq in Hne. rewrite Hne in E.
  split.
  - unfold Gts.isValid. rewrite E.
    pose proof (set_leaves_a_key (Gts.errors st) f (get validation f) Hs) as Hk.
    destruct (_set (Gts.errors st) f (get validation f)); [congruence|reflexivity].
  - intros Hd Hg.
    assert (G : own_get (Gts.errors (fst (Gts.validate H a st (Some f)))) f = Some VUndef).
    { rewrite E, Hg. unfold _set. rewrite castPath_literal by auto.
      rewrite head_segment_plain in Hs by auto.
      destruct (baseSet_safe_top (Gts.errors st) f [] VUndef Hs) as [x Hx].
      simpl in Hx |- *. rewrite Hs in Hx |- *. apply own_get_own_set_same. }
    split; [exact G|].
    unfold Gts.getFieldState, fieldState, prop. now rewrite G.
Qed.

Lemma field_validation_leaves_form_invalid_witness :
  Gts.isValid
    (fst (Gts.validate small_host guarded (Gts.create [("foo", VStr "ok")]) (Some "foo")))
  = false
  /\ foo_required (Gts.parsedValues small_host (Gts.create [("foo", VStr "ok")])) []
     = Resolved [].
Proof.
  split; [|reflexivity].
  apply (proj1 (field_validation_leaves_form_invalid small_host guarded
                  (Gts.create [("foo", VStr "ok")]) "foo" foo_required []
                  ltac:(discriminate) eq_refl eq_refl eq_refl)).
Defined.

(** X5.  A validator that rejects makes [submit] throw: no callback is
    called, the attempt is still counted and the submitting and
    validating flags are cleared, [isSubmitted] is true, and
    [isSubmitSuccessful], the error map and the bags keep what they
    held. *)
Theorem submit_with_rejecting_validator
  (H : host) (a : Gts.args) (st : Gts.store) (v : props -> props -> settled) :
  Gts.shouldValidateOrRevalidate a st onSubmit = true ->
  Gts.validator a = Some v ->
  v (Gts.parsedValues H st) (Gts.nativeValidations st) = Rejected ->
  Gts.submit H a st
  = (Gts.set_submitCount
       (Gts.set_isSubmitting
          (Gts.set_isValidating (Gts.set_isSubmitted st true) false) false)
       (S (Gts.submitCount st)),
     [Gts.PreventDefault], Threw).
Proof.
  intros Ht Hv Hr. unfold Gts.submit.
  change (Gts.shouldValidateOrRevalidate a
            (Gts.set_isSubmitted (Gts.set_isSubmitting st true) true) onSubmit)
    with (Gts.shouldValidateOrRevalidate a st onSubmit).
  rewrite Ht. unfold Gts.validate, Gts.validate_begin, Gts.validate_settle.
  rewrite Hv. simpl.
  change (Gts.parsedValues H
            (Gts.set_isValidating
               (Gts.set_isSubmitted (Gts.set_isSubmitting st true) true) true))
    with (Gts.parsedValues H st).
  rewrite Hr. reflexivity.
Qed.

Lemma submit_with_rejecting_validator_witness :
  snd (Gts.submit small_host rejecting (Gts.create [("foo", VStr "x")])) = Threw
  /\ Gts.submitCount
       (fst (fst (Gts.submit small_host rejecting (Gts.create [("foo", VStr "x")])))) = 1.
Proof.
  rewrite (submit_with_rejecting_validator small_host rejecting
             (Gts.create [("foo", VStr "x")]) (fun _ _ => Rejected)
             eq_refl eq_refl eq_refl).
  split; reflexivity.
Defined.

Ltac submit_cases H a st :=
  unfold Gts.submit;
  destruct (Gts.shouldValidateOrRevalidate a
              (Gts.set_isSubmitted (Gts.set_isSubmitting st true) true) onSubmit);
  [destruct (Gts.validate H a
               (Gts.set_isSubmitted (Gts.set_isSubmitting st true) true) None)
     as [?st2 [|]]|];
  cbv zeta; cbv iota;
  repeat match goal with
         | |- context [if negb (Gts.isValid ?s) then _ else _] =>
             destruct (Gts.isValid s)
         | |- context [match Gts.arg_onSubmit a with _ => _ end] =>
             destruct (Gts.arg_onSubmit a) as [?f|]
         | |- context [includes (Gts.handleOn a) onSubmit] =>
             destruct (includes (Gts.handleOn a) onSubmit)
         | |- context [match Gts.handler a with _ => _ end] =>
             destruct (Gts.handler a) as [?g|]
         | |- context [let '(_, _) := ?f ?s in _] => destruct (f s) as [? ?]
         end;
  cbn [negb fst snd].

(** X6.  [submit] calls at most one callback of the integrator.  The
    submit handler has precedence: the values handler is called only
    when no submit handler was given and [handleOn] includes the submit
    event. *)
Theorem submit_calls_one_callback (H : host) (a : Gts.args) (st : Gts.store) :
  let calls := snd (fst (Gts.submit H a st)) in
  ~ (In Gts.CallOnSubmit calls /\ In Gts.CallHandler calls)
  /\ (In Gts.CallOnSubmit calls -> Gts.arg_onSubmit a <> None)
  /\ (In Gts.CallHandler calls ->
      Gts.arg_onSubmit a = None /\ Gts.handler a <> None
      /\ includes (Gts.handleOn a) onSubmit = true).
Proof.
  submit_cases H a st; simpl;
    repeat split; try discriminate; try reflexivity;
    intuition discriminate.
Qed.

Lemma submit_ends_in_finally (H : host) (a : Gts.args) (st : Gts.store) :
  exists body, fst (fst (Gts.submit H a st)) = Gts.submit_finally body.
Proof. submit_cases H a st; simpl; eexists; reflexivity. Qed.

(** X7.  Before the first submit attempt an event triggers validation
    when [validateOn] lists it; after any submit attempt, however it
    ended, [revalidateOn] decides instead. *)
Theorem revalidate_after_submit
  (H : host) (a : Gts.args) (st : Gts.store) (e : HandlerEvent) :
  Gts.shouldValidateOrRevalidate a (fst (fst (Gts.submit H a st))) e
  = includes (Gts.revalidateOn a) e
  /\ forall vals,
       Gts.shouldValidateOrRevalidate a (Gts.create vals) e
       = includes (Gts.validateOn a) e.
Proof.
  split; [|reflexivity].
  destruct (submit_ends_in_finally H a st) as [body ->]. reflexivity.
Qed.

(** X8.  A write that marks the field records a flag under its key even
    when the flag is [false]: after [setValue(f, v, {shouldDirty: true})]
    the dirty set is never empty, so the form reports [isDirty] and not
    [isPristine], whatever the field's own flag says. *)
Theorem dirty_write_makes_form_dirty
  (H : host) (a : Gts.args) (st : Gts.store) (f : string) (v : value)
  (ctx : Gts.SetContext) :
  Gts.shouldDirty ctx = true ->
  Gts.isDirty (fst (Gts.setValue H a st f v ctx)) = true
  /\ Gts.isPristine (fst (Gts.setValue H a st f v ctx)) = false
  /\ has_own (Gts.dirtyFields (fst (Gts.setValue H a st f v ctx))) f = true.
Proof.
  intros Hd.
  assert (E : exists b,
             Gts.dirtyFields (fst (Gts.setValue H a st f v ctx))
             = own_set (Gts.dirtyFields st) f (VBool b)).
  { unfold Gts.setValue. rewrite Hd.
    set (st1 := Gts.set_values st (own_set (Gts.values st) f v)).
    destruct (Gts.shouldValidate ctx).
    - pose proof (validate_keeps_bags H a (Gts.dirtyField H st1 f) (Some f))
        as (_ & _ & _ & Hdf & _).
      rewrite Hdf. eexists. reflexivity.
    - eexists. reflexivity. }
  destruct E as [b E].
  assert (P : Gts.isPristine (fst (Gts.setValue H a st f v ctx)) = false).
  { unfold Gts.isPristine. rewrite E.
    pose proof (own_set_nonempty (Gts.dirtyFields st) f (VBool b)).
    destruct (own_set (Gts.dirtyFields st) f (VBool b)); [congruence|reflexivity]. }
  split; [|split]; auto.
  - unfold Gts.isDirty. now rewrite P.
  - unfold has_own. rewrite E. now rewrite own_get_own_set_same.
Qed.

Lemma dirty_write_makes_form_dirty_witness :
  Gts.isDirty
    (fst (Gts.setValue small_host quiet (Gts.create [("foo", VStr "DEFAULT")])
            "foo" (VStr "DEFAULT") dirty_write)) = true
  /\ FieldState.isDirty
       (Gts.getFieldState
          (fst (Gts.setValue small_host quiet (Gts.create [("foo", VStr "DEFAULT")])
                  "foo" (VStr "DEFAULT") dirty_write)) "foo") = VBool false.
Proof.
  split; [|reflexivity].
  apply (proj1 (dirty_write_makes_form_dirty small_host quiet
                  (Gts.create [("foo", VStr "DEFAULT")]) "foo" (VStr "DEFAULT")
                  dirty_write eq_refl)).
Defined.

(* ================================================================== *)
(** ** More facts: rollback, unregister, register *)

Lemma baseUnset_other (ps : props) (path : list string) (k : string) :
  k <> hd "" path -> own_get (baseUnset ps path) k = own_get ps k.
Proof.
  destruct path as [|key rest]; auto. simpl hd. intros Hne.
  destruct rest as [|next more].
  - simpl. now apply own_get_own_delete_other.
  - cbn [baseUnset].
    destruct (own_get ps key) as [[| | | | | |kd inner]|]; auto.
    now apply own_get_own_set_other.
Qed.

(** After [_unset(o, f)] the object has no literal key [f]. *)
Lemma unset_flat_gone (ps : props) (f : string) : own_get (_unset ps f) f = None.
Proof.
  unfold _unset.
  destruct (castPath_cases ps f) as [E|(Hd & Ho & E)]; rewrite E.
  - apply own_get_own_delete_same.
  - rewrite baseUnset_other.
    + unfold has_own in Ho. destruct (own_get ps f); [discriminate|reflexivity].
    + intros Ef. pose proof (head_segment_no_dot f) as Hh.
      unfold head_segment in Hh. rewrite <- Ef in Hh. congruence.
Qed.

(** The frame of [_unset]: a key that is neither the path itself nor its
    first segment keeps its entry. *)
Lemma unset_other (ps : props) (f k : string) :
  k <> f -> k <> head_segment f -> own_get (_unset ps f) k = own_get ps k.
Proof.
  intros Hf Hh. unfold _unset.
  destruct (castPath_cases ps f) as [E|(_ & _ & E)]; rewrite E.
  - now apply own_get_own_delete_other.
  - now apply baseUnset_other.
Qed.

(** X9.  A rollback of one field clears the dirty flag and the error the
    field is read with, unless they are kept, in which case the dirty set
    or the error map is untouched.  It leaves [isSubmitted], the parser
    registry and the stored value of every other key as they were, and in
    the dirty set and the error map it touches no key other than the
    field and its first path segment. *)
Theorem rollback_field_clears_flags
  (st : Gts.store) (f : string) (ctx : Gts.RollbackContext) :
  f <> "" ->
  let st' := Gts.rollback st (Some f) ctx in
  (if Gts.keepDirty ctx then Gts.dirtyFields st' = Gts.dirtyFields st
   else FieldState.isDirty (Gts.getFieldState st' f) = VBool false
        /\ FieldState.isPristine (Gts.getFieldState st' f) = true)
  /\ (if Gts.keepError ctx then Gts.errors st' = Gts.errors st
      else FieldState.isInvalid (Gts.getFieldState st' f) = false)
  /\ Gts.isSubmitted st' = Gts.isSubmitted st
  /\ Gts.parsers st' = Gts.parsers st
  /\ (forall k, k <> f -> own_get (Gts.values st') k = own_get (Gts.values st) k)
  /\ (forall k, k <> f -> k <> head_segment f ->
        own_get (Gts.errors st') k = own_get (Gts.errors st) k
        /\ own_get (Gts.dirtyFields st') k = own_get (Gts.dirtyFields st) k).
Proof.
  intros Hne. apply String.eqb_neq in Hne.
  unfold Gts.rollback, field_given. rewrite Hne.
  destruct (toBoolean (Gts.defaultValue ctx)), (Gts.keepError ctx), (Gts.keepDirty ctx);
    cbn -[_unset own_set]; unfold Gts.getFieldState, fieldState, prop;
    cbn -[_unset own_set]; rewrite ?unset_flat_gone;
    repeat split; auto;
    try (intros k Hk; now apply own_get_own_set_other);
    try (intros; now apply unset_other).
Qed.

Lemma rollback_field_clears_flags_witness :
  FieldState.isDirty
    (Gts.getFieldState
       (Gts.rollback
          (fst (Gts.setValue small_host quiet (Gts.create [("foo", VStr "DEFAULT")])
                  "foo" (VStr "CHANGED") dirty_write))
          (Some "foo") Gts.no_context)
       "foo") = VBool false.
Proof.
  apply (proj1 (proj1 (rollback_field_clears_flags
                  (fst (Gts.setValue small_host quiet (Gts.create [("foo", VStr "DEFAULT")])
                          "foo" (VStr "CHANGED") dirty_write))
                  "foo" Gts.no_context ltac:(discriminate)))).
Defined.


Lemma rollback_field_values
  (st : Gts.store) (f : string) (ctx : Gts.RollbackContext) :
  f <> "" -> nullish (Gts.defaultValue ctx) = true ->
  Gts.rollbackValues (Gts.rollback st (Some f) ctx) = Gts.rollbackValues st
  /\ Gts.values (Gts.rollback st (Some f) ctx)
     = own_set (Gts.values st) f (coalesce (prop (Gts.rollbackValues st) f) VUndef).
Proof.
  intros Hne Hn. apply String.eqb_neq in Hne.
  unfold Gts.rollback, field_given. rewrite Hne.
  assert (Hb : toBoolean (Gts.defaultValue ctx) = false).
  { destruct (Gts.defaultValue ctx); simpl in *; congruence. }
  assert (Hc : forall x, coalesce (Gts.defaultValue ctx) x = x).
  { intros x. unfold coalesce. now rewrite Hn. }
  rewrite Hb, Hc.
  destruct (Gts.keepError ctx), (Gts.keepDirty ctx); split; reflexivity.
Qed.

Lemma rollback_fields_values
  (ctx : Gts.RollbackContext) (ks : list string) (st : Gts.store) :
  ~ In "" ks -> nullish (Gts.defaultValue ctx) = true ->
  let st' := fold_left (fun s field => Gts.rollback s (Some field) ctx) ks st in
  Gts.rollbackValues st' = Gts.rollbackValues st
  /\ (forall k, ~ In k ks -> own_get (Gts.values st') k = own_get (Gts.values st) k)
  /\ (forall k, In k ks ->
        own_get (Gts.values st') k
        = Some (coalesce (prop (Gts.rollbackValues st) k) VUndef)).
Proof.
  intros Hks Hn. revert st. induction ks as [|k0 rest IH]; intros st; simpl.
  - repeat split; auto. intros k [].
  - assert (Hk0 : k0 <> "") by (intros E; apply Hks; simpl; auto).
    assert (Hrest : ~ In "" rest) by (intros E; apply Hks; simpl; auto).
    destruct (rollback_field_values st k0 ctx Hk0 Hn) as (Hr & Hv).
    destruct (IH Hrest (Gts.rollback st (Some k0) ctx)) as (IHr & IHout & IHin).
    split; [congruence|]. split.
    + intros k Hk. rewrite IHout by (intros E; apply Hk; auto).
      rewrite Hv. apply own_get_own_set_other. intros E. apply Hk. auto.
    + intros k Hk. destruct (in_dec string_dec k rest) as [Hin|Hout].
      * rewrite IHin by exact Hin. now rewrite Hr.
      * destruct Hk as [->|Hk]; [|contradiction].
        rewrite IHout by exact Hout. rewrite Hv. apply own_get_own_set_same.
Qed.

(** X11.  [rollbackInvalid] validates the whole form and rolls back the
    own keys of [invalidFields], which are first path segments: with no
    explicit default, each of them gets the value the snapshot holds
    under it, and every other literal key of the values bag, so every
    key with a dot, keeps its stored value.  A form the validator finds
    valid loses nothing. *)
Theorem rollbackInvalid_resets_top_level_keys
  (H : host) (a : Gts.args) (st : Gts.store) (ctx : Gts.RollbackContext)
  (v : props -> props -> settled) (validation : props) :
  Gts.validator a = Some v ->
  v (Gts.parsedValues H st) (Gts.nativeValidations st) = Resolved validation ->
  ~ In "" (keys (invalid_of validation)) ->
  nullish (Gts.defaultValue ctx) = true ->
  let st' := fst (Gts.rollbackInvalid H a st ctx) in
  snd (Gts.rollbackInvalid H a st ctx) = Returned
  /\ (forall k, In k (keys (invalid_of validation)) ->
        own_get (Gts.values st') k
        = Some (coalesce (prop (Gts.rollbackValues st) k) VUndef))
  /\ (forall k, ~ In k (keys (invalid_of validation)) ->
        own_get (Gts.values st') k = own_get (Gts.values st) k)
  /\ (forall k, has_dot k = true ->
        own_get (Gts.values st') k = own_get (Gts.values st) k)
  /\ (validation = [] -> Gts.values st' = Gts.values st /\ Gts.errors st' = []).
Proof.
  intros Hv Hr Hks Hn st'. subst st'.
  unfold Gts.rollbackInvalid, Gts.validate, Gts.validate_begin, Gts.validate_settle.
  rewrite Hv. cbn [fst snd Gts.p_result Gts.p_field].
  change (Gts.parsedValues H (Gts.set_isValidating st true))
    with (Gts.parsedValues H st).
  change (Gts.nativeValidations (Gts.set_isValidating st true))
    with (Gts.nativeValidations st).
  rewrite Hr. cbn [fst snd Gts.p_result Gts.p_field apply_validation field_given].
  set (st1 := Gts.set_isValidating
                (Gts.set_errors (Gts.set_isValidating st true) validation) false).
  change (Gts.invalidFields st1) with (invalid_of validation).
  destruct (rollback_fields_values ctx (keys (invalid_of validation)) st1 Hks Hn)
    as (_ & Hout & Hin).
  split; [reflexivity|]. split; [exact Hin|]. split; [exact Hout|]. split.
  - intros k Hd. apply Hout. intros Hk.
    apply invalid_of_no_dotted_key in Hk. congruence.
  - intros ->. split; reflexivity.
Qed.

Lemma rollbackInvalid_resets_top_level_keys_witness :
  let st := fst (Gts.setValue small_host street_required
                   (Gts.create [("address", obj [("street", VStr "Main")])])
                   "address.street" (VStr "") quiet_write) in
  own_get (Gts.values (fst (Gts.rollbackInvalid small_host street_required st
                              Gts.no_context)))
    "address.street" = Some (VStr "")
  /\ Gts.getValue small_host
       (fst (Gts.rollbackInvalid small_host street_required st Gts.no_context))
       "address.street" = VStr "".
Proof.
  cbv zeta. split; [|reflexivity].
  refine (eq_trans
            (proj1 (proj2 (proj2 (proj2
               (rollbackInvalid_resets_top_level_keys small_host street_required
                  (fst (Gts.setValue small_host street_required
                          (Gts.create [("address", obj [("street", VStr "Main")])])
                          "address.street" (VStr "") quiet_write))
                  Gts.no_context _ _ eq_refl eq_refl _ eq_refl))))
               "address.street" eq_refl)
            eq_refl).
  intros [E|[]]. discriminate.
Defined.











(* ================================================================== *)
(** ** More facts: the listeners of a bound element *)

Lemma fresh_not_there (owner : nat) (ls : list listener) (ev : string) (h : handler_kind) :
  fresh_owner owner ls -> existsb (same_listener ev owner h) ls = false.
Proof.
  intros Hf. induction ls as [|l rest IH]; [reflexivity|]. simpl.
  rewrite IH by (intros x Hx; apply Hf; simpl; auto).
  unfold same_listener.
  assert (E : Nat.eqb (l_owner l) owner = false).
  { apply Nat.eqb_neq. apply Hf. simpl; auto. }
  rewrite E. now rewrite Bool.andb_false_r.
Qed.

Lemma remove_fresh (owner : nat) (ls : list listener) (ev : string) (h : handler_kind) :
  fresh_owner owner ls -> removeEventListener ls ev owner h = ls.
Proof.
  intros Hf. unfold removeEventListener.
  induction ls as [|l rest IH]; [reflexivity|]. simpl.
  rewrite IH by (intros x Hx; apply Hf; simpl; auto).
  unfold same_listener.
  assert (E : Nat.eqb (l_owner l) owner = false).
  { apply Nat.eqb_neq. apply Hf. simpl; auto. }
  rewrite E. now rewrite Bool.andb_false_r.
Qed.

Lemma remove_app (l1 l2 : list listener) (ev : string) (owner : nat) (h : handler_kind) :
  removeEventListener (l1 ++ l2) ev owner h
  = removeEventListener l1 ev owner h ++ removeEventListener l2 ev owner h.
Proof. apply filter_app. Qed.

Lemma add_after_fresh (owner : nat) (ls mine : list listener) (ev : string)
  (h : handler_kind) :
  fresh_owner owner ls ->
  addEventListener (ls ++ mine) ev owner h = ls ++ addEventListener mine ev owner h.
Proof.
  intros Hf. unfold addEventListener.
  rewrite existsb_app, (fresh_not_there _ _ _ _ Hf). simpl.
  destruct (existsb (same_listener ev owner h) mine); auto.
  now rewrite app_assoc.
Qed.

Lemma remove_after_fresh (owner : nat) (ls mine : list listener) (ev : string)
  (h : handler_kind) :
  fresh_owner owner ls ->
  removeEventListener (ls ++ mine) ev owner h = ls ++ removeEventListener mine ev owner h.
Proof. intros Hf. now rewrite remove_app, (remove_fresh _ _ _ _ Hf). Qed.

Lemma add_fresh (owner : nat) (ls : list listener) (ev : string) (h : handler_kind) :
  fresh_owner owner ls ->
  addEventListener ls ev owner h = ls ++ addEventListener [] ev owner h.
Proof.
  intros Hf. rewrite <- (app_nil_r ls) at 1. now apply add_after_fresh.
Qed.

(** A listener of this registration against a listener sought. *)
Lemma same_listener_mine (ev ev' : string) (owner : nat) (h h' : handler_kind) :
  same_listener ev owner h {| l_event := ev'; l_owner := owner; l_handler := h' |}
  = String.eqb ev' ev && handler_eqb h' h.
Proof. unfold same_listener. simpl. now rewrite Nat.eqb_refl, Bool.andb_true_r. Qed.

Ltac mine :=
  repeat (unfold addEventListener, removeEventListener;
          cbn [existsb filter app];
          rewrite ?same_listener_mine;
          cbn [handler_eqb];
          rewrite ?String.eqb_refl, ?Bool.andb_false_r;
          cbn [andb orb negb String.eqb Ascii.eqb Bool.eqb]).

(** X14.  On the classic component the teardown of a registration undoes
    its listeners but one: the focus handler is added for [focusin] and
    removed for [focus], so it stays on the element whenever it was
    added.  The change handler always listens to [input], for a checkbox
    or a radio button too. *)
Theorem teardown_leaves_focus_listener
  {R : Type} (a : Classic.args R) (tagName type : string) (cb : field_callbacks)
  (owner : nat) (ls : list listener) :
  fresh_owner owner ls ->
  let u := inputUtils tagName type in
  Classic.register_teardown a u cb owner (Classic.register_listeners a u cb owner ls)
  = (if isFormInput u && (has_onFocus cb || includes (Classic.updateEvents a) onFocus)
     then ls ++ [listener_of "focusin" owner HandleFocus]
     else ls)
  /\ (isFormInput u = true ->
      In (listener_of "input" owner HandleChange)
        (Classic.register_listeners a u cb owner ls))
  /\ (isFormInput u = false -> Classic.register_listeners a u cb owner ls = ls).
Proof.
  intros Hf u.
  assert (Hp : isFormInput u = true -> primary_event u = "input").
  { subst u. unfold inputUtils, primary_event. simpl.
    destruct (String.eqb tagName "INPUT"), (String.eqb tagName "SELECT"),
      (String.eqb tagName "TEXTAREA"); simpl; auto; discriminate. }
  unfold Classic.register_teardown, Classic.register_listeners.
  destruct (isFormInput u) eqn:Hform; cbn [negb andb].
  - rewrite (Hp eq_refl).
    destruct (has_onBlur cb || includes (Classic.updateEvents a) onBlur),
      (has_onFocus cb || includes (Classic.updateEvents a) onFocus);
      cbv zeta;
      rewrite (add_fresh owner ls) by exact Hf;
      rewrite ?(add_after_fresh _ _ _ _ _ Hf), ?(remove_after_fresh _ _ _ _ _ Hf);
      mine; rewrite ?app_nil_r;
      (split; [reflexivity|split; [|discriminate]]);
      intros _; apply in_or_app; right; simpl; auto.
  - repeat split; auto. discriminate.
Qed.

Lemma teardown_leaves_focus_listener_witness :
  Classic.register_teardown no_validator text_input focus_callback 0
    (Classic.register_listeners no_validator text_input focus_callback 0 [])
  = [listener_of "focusin" 0 HandleFocus].
Proof.
  apply (proj1 (teardown_leaves_focus_listener no_validator "INPUT" "text"
                  focus_callback 0 [] ltac:(intros l []))).
Defined.

(** X15.  On the later revision the conditions under which the blur and
    focus listeners are added and removed read the store when they run.
    A registration made on a store [st0] and torn down on a store [st1]
    leaves the blur listener when the condition held on [st0] and no
    longer holds on [st1], and leaves the focus listener whenever it was
    added, the removal naming [focus] where the addition named
    [focusin]. *)
Theorem teardown_reads_the_store
  (a : Gts.args) (st0 st1 : Gts.store) (u : input_kind) (cb : field_callbacks)
  (owner : nat) (ls : list listener) :
  fresh_owner owner ls ->
  isFormInput u = true ->
  let blur := fun st => has_onBlur cb || Gts.shouldValidateOrRevalidate a st onBlur
                        || includes (Gts.handleOn a) onBlur in
  let focus := fun st => has_onFocus cb || Gts.shouldValidateOrRevalidate a st onFocus
                         || includes (Gts.handleOn a) onFocus in
  Gts.register_teardown a st1 u cb owner (Gts.register_listeners a st0 u cb owner ls)
  = ls ++ (if blur st0 && negb (blur st1)
           then [listener_of "blur" owner HandleBlur] else [])
       ++ (if focus st0 then [listener_of "focusin" owner HandleFocus] else []).
Proof.
  intros Hf Hform blur focus. subst blur focus.
  unfold Gts.register_teardown, Gts.register_listeners. rewrite Hform. cbn [negb].
  destruct (has_onBlur cb || Gts.shouldValidateOrRevalidate a st0 onBlur
            || includes (Gts.handleOn a) onBlur),
    (has_onBlur cb || Gts.shouldValidateOrRevalidate a st1 onBlur
     || includes (Gts.handleOn a) onBlur),
    (has_onFocus cb || Gts.shouldValidateOrRevalidate a st0 onFocus
     || includes (Gts.handleOn a) onFocus),
    (has_onFocus cb || Gts.shouldValidateOrRevalidate a st1 onFocus
     || includes (Gts.handleOn a) onFocus);
    cbv zeta;
    rewrite (add_fresh owner ls) by exact Hf;
    rewrite ?(add_after_fresh _ _ _ _ _ Hf), ?(remove_after_fresh _ _ _ _ _ Hf);
    mine; rewrite ?app_nil_r; reflexivity.
Qed.

Lemma teardown_reads_the_store_witness :
  Gts.register_teardown quiet
    (fst (fst (Gts.submit small_host quiet (Gts.create [("foo", VStr "x")]))))
    text_input no_callbacks 0
    (Gts.register_listeners quiet (Gts.create [("foo", VStr "x")])
       text_input no_callbacks 0 [])
  = [listener_of "blur" 0 HandleBlur].
Proof.
  apply (teardown_reads_the_store quiet (Gts.create [("foo", VStr "x")])
           (fst (fst (Gts.submit small_host quiet (Gts.create [("foo", VStr "x")]))))
           text_input no_callbacks 0 [] ltac:(intros l []) eq_refl).
Defined.





(* ================================================================== *)
(** ** More facts: the classic component *)



(** X18.  The classic change handler validates before it writes: when
    [updateEvents] lists the change event, the validator is called with
    the values as they were before the change, so the error map it
    leaves speaks of the old value while the bag holds the new one.
    Without an event target the handler throws and changes nothing. *)
Theorem change_is_validated_before_it_is_written
  {R : Type} {ops : RecordOps R} (H : host) (a : Classic.args R)
  (st : Classic.store R) (ps : props) (name : string) (v : value)
  (vd : Classic.source R -> props -> settled) (validation : props) :
  includes (Classic.updateEvents a) onChange = true ->
  Classic.arg_onValuesChanged a = None ->
  Classic.validator a = Some vd ->
  vd (Classic.parsedValues H st) (Classic.validations st) = Resolved validation ->
  Classic.values st = Classic.Plain ps ->
  let '(st', calls, out) := Classic.handleChange H a st name (Some v) None in
  Classic.errors st' = validation
  /\ Classic.values st' = Classic.Plain (own_set ps name v)
  /\ FieldState.isDirty (Classic.getFieldState st' name) = VBool true
  /\ calls = [] /\ out = Returned
  /\ Classic.handleChange H a st name None None = (st, [], Threw).
Proof.
  intros Hi Hc Hv Hr Hp. unfold Classic.handleChange. rewrite Hi, Hc.
  unfold Classic.validate, Classic.validate_begin, Classic.validate_settle.
  rewrite Hv. cbn [Classic.p_result Classic.p_field].
  change (Classic.parsedValues H
            (Classic.set_dirtyFields st
               (own_set (Classic.dirtyFields st) name (VBool true))))
    with (Classic.parsedValues H st).
  change (Classic.validations
            (Classic.set_dirtyFields st
               (own_set (Classic.dirtyFields st) name (VBool true))))
    with (Classic.validations st).
  rewrite Hr. cbn -[own_set]. rewrite Hp.
  unfold Classic.getFieldState, fieldState. cbn -[own_set].
  rewrite prop_own_set_same. repeat split.
Qed.

Lemma change_is_validated_before_it_is_written_witness :
  let '(st', calls, out) :=
    Classic.handleChange small_host validate_on_change
      (Classic.create (Classic.Plain [("foo", VStr "")])) "foo" (Some (VStr "ok")) None in
  Classic.errors st' = [("foo", arr [("0", required_error)])]
  /\ Classic.values st' = Classic.Plain [("foo", VStr "ok")].
Proof.
  pose proof (change_is_validated_before_it_is_written small_host validate_on_change
                (Classic.create (Classic.Plain [("foo", VStr "")])) [("foo", VStr "")]
                "foo" (VStr "ok") _ [("foo", arr [("0", required_error)])]
                eq_refl eq_refl eq_refl eq_refl eq_refl) as T.
  destruct (Classic.handleChange small_host validate_on_change
              (Classic.create (Classic.Plain [("foo", VStr "")])) "foo"
              (Some (VStr "ok")) None) as [[st' calls] out].
  destruct T as (He & Hv & _). split; [exact He|exact Hv].
Defined.

(* ================================================================== *)
(** ** More facts: the error messages of the later revision *)

Lemma own_set_new_key (ps : props) (k : string) (v : value) :
  own_get ps k = None -> array_index k = None -> own_set ps k v = ps ++ [(k, v)].
Proof.
  intros Hg Hi. unfold own_set, has_own. now rewrite Hg, Hi.
Qed.

Lemma flat_values_app (o o' : props) :
  flat_values (o ++ o') = flat_values o ++ flat_values o'.
Proof.
  unfold flat_values. now rewrite map_app, flat_map_app.
Qed.

(** X19.  [setError] on a field that has no entry yet, and whose name is
    not an array index, adds exactly one message at the end of
    [errorMessages]: the string given, or the [message] of the error
    object, which is [undefined] when the object has none. *)
Theorem setError_adds_its_message
  (H : host) (st : Gts.store) (f : string) (e : error_arg) :
  own_get (Gts.errors st) f = None ->
  array_index f = None ->
  Gts.errorMessages (Gts.setError H st f e)
  = Gts.errorMessages st
    ++ [match e with Message m => VStr m | ErrorObject ps => prop ps "message" end].
Proof.
  intros Hg Hi. unfold Gts.errorMessages, Gts.setError, append_error, prop.
  rewrite Hg. cbn [coalesce nullish arr dense array_length N.to_nat List.length app
                   N.of_nat].
  cbn [Gts.errors Gts.set_errors].
  rewrite (own_set_new_key _ _ _ Hg Hi), flat_values_app, filter_app, map_app.
  f_equal. destruct e; reflexivity.
Qed.

Lemma setError_adds_its_message_witness :
  Gts.errorMessages
    (Gts.setError small_host
       (Gts.setError small_host (Gts.create [("foo", VStr "")]) "foo" (Message "required"))
       "bar" (ErrorObject [("type", VStr "length")]))
  = [VStr "required"; VUndef].
Proof.
  exact (setError_adds_its_message small_host
           (Gts.setError small_host (Gts.create [("foo", VStr "")]) "foo"
              (Message "required"))
           "bar" (ErrorObject [("type", VStr "length")]) eq_refl eq_refl).
Defined.
